(** * RoofController: a shallow embedding of the roll-off roof firmware

    The firmware (RoofController.ino) is a single cooperative loop: the
    Firmata string callback applies the commands OPEN, CLOSE, ABORT and
    QUERY, and [handleState] runs once per pass of [loop()].  The globals of
    the sketch become one record, the output pins another, and every
    function of the sketch becomes a computation in a small monad that
    reads the input pins, updates the machine and logs what it writes to
    the pins and to the serial link. *)

From Stdlib Require Import ZArith List String Bool Lia FunInd Recdef.
Import ListNotations.
Open Scope string_scope.
Open Scope list_scope.
Open Scope Z_scope.

(** ** Machine integers

    [millis()] is an [unsigned long] and [hoistOnTime], [ledToggleTime] are
    [long]: 32 bits on the boards the sketch targets. *)

Module Word.

Definition modulus : Z := 2 ^ 32.
Definition half : Z := 2 ^ 31.

(** Value of an [unsigned long] expression. *)
Definition to_ulong (z : Z) : Z := z mod modulus.

(** Value stored by a conversion to [long]. *)
Definition to_long (z : Z) : Z :=
  let u := to_ulong z in if u <? half then u else u - modulus.

(** [a - b] evaluated in [unsigned long]. *)
Definition usub (a b : Z) : Z := to_ulong (a - b).

End Word.

(** ** Pins, levels, roof states *)

Inductive Level := LOW | HIGH.

Definition Level_eqb (a b : Level) : bool :=
  match a, b with
  | LOW, LOW | HIGH, HIGH => true
  | _, _ => false
  end.

Inductive Pin :=
| pinRelayOpen | pinRelayClose
| pinLimitSwitchClose | pinLimitSwitchOpen
| parkTelescopeRA | parkTelescopeDEC
| ledPin.

(** The pin numbers of the sketch. *)
Definition pin_number (p : Pin) : Z :=
  match p with
  | pinRelayOpen => 3
  | pinRelayClose => 2
  | pinLimitSwitchClose => 4
  | pinLimitSwitchOpen => 5
  | parkTelescopeRA => 6
  | parkTelescopeDEC => 7
  | ledPin => 13
  end.

Inductive RoofState :=
| roofClosed | roofOpen | roofStopped | roofClosing | roofOpening.

(** The integer constants behind the states. *)
Definition state_code (s : RoofState) : Z :=
  match s with
  | roofClosed => 0
  | roofOpen => 1
  | roofStopped => 2
  | roofClosing => 3
  | roofOpening => 4
  end.

Definition RoofState_eqb (a b : RoofState) : bool :=
  state_code a =? state_code b.

(** ** The machine *)

(** The four input pins as one pass of the loop samples them. *)
Record Sensors := mkSensors {
  limitOpen : Level;
  limitClose : Level;
  parkRA : Level;
  parkDEC : Level
}.

(** The three output pins. *)
Record Ports := mkPorts {
  relayOpen : Level;
  relayClose : Level;
  led : Level
}.

(** The globals of the sketch. *)
Record Globals := mkGlobals {
  roofState : RoofState;
  previousRoofState : RoofState;
  hoistOnTime : Z;
  ledToggleTime : Z;
  ledState : bool
}.

Record Machine := mkMachine {
  globals : Globals;
  ports : Ports;
  clock : Z            (* milliseconds since power-up, unbounded *)
}.

(** What the outside sees: a pin written at a time, a string sent. *)
Inductive Event :=
| EvWrite (p : Pin) (v : Level) (t : Z)
| EvSend (s : string).

(** ** The monad: reader of the sensors, state of the machine, writer of
    the events. *)

Definition M (A : Type) : Type := Sensors -> Machine -> A * Machine * list Event.

Definition ret {A} (a : A) : M A := fun _ m => (a, m, []).

Definition bind {A B} (c : M A) (k : A -> M B) : M B :=
  fun sens m =>
    let '(a, m1, e1) := c sens m in
    let '(b, m2, e2) := k a sens m1 in
    (b, m2, e1 ++ e2).

Declare Scope roof_scope.
Delimit Scope roof_scope with roof.
Notation "x <- c ;; k" := (bind c (fun x => k))
  (at level 61, c at next level, right associativity) : roof_scope.
Notation "c ;; k" := (bind c (fun _ => k))
  (at level 61, right associativity) : roof_scope.
Open Scope roof_scope.

Definition get_globals : M Globals := fun _ m => (globals m, m, []).

Definition put_globals (g : Globals) : M unit :=
  fun _ m => (tt, mkMachine g (ports m) (clock m), []).

Definition when (b : bool) (c : M unit) : M unit := if b then c else ret tt.

(** Value returned by a computation. *)
Definition result {A} (c : M A) (sens : Sensors) (m : Machine) : A :=
  fst (fst (c sens m)).

(** Final machine and events of a computation. *)
Definition exec {A} (c : M A) (sens : Sensors) (m : Machine) : Machine * list Event :=
  let '(_, m', ev) := c sens m in (m', ev).

(** ** The Arduino primitives *)

Definition write_port (p : Pin) (v : Level) (ps : Ports) : Ports :=
  match p with
  | pinRelayOpen => mkPorts v (relayClose ps) (led ps)
  | pinRelayClose => mkPorts (relayOpen ps) v (led ps)
  | ledPin => mkPorts (relayOpen ps) (relayClose ps) v
  | _ => ps
  end.

Definition digitalWrite (p : Pin) (v : Level) : M unit :=
  fun _ m =>
    (tt, mkMachine (globals m) (write_port p v (ports m)) (clock m),
     [EvWrite p v (clock m)]).

Definition digitalRead (p : Pin) : M Level :=
  fun sens m =>
    (match p with
     | pinLimitSwitchOpen => limitOpen sens
     | pinLimitSwitchClose => limitClose sens
     | parkTelescopeRA => parkRA sens
     | parkTelescopeDEC => parkDEC sens
     | pinRelayOpen => relayOpen (ports m)
     | pinRelayClose => relayClose (ports m)
     | ledPin => led (ports m)
     end, m, []).

Definition millis : M Z := fun _ m => (Word.to_ulong (clock m), m, []).

Definition delay (ms : Z) : M unit :=
  fun _ m => (tt, mkMachine (globals m) (ports m) (clock m + ms), []).

Definition sendString (s : string) : M unit := fun _ m => (tt, m, [EvSend s]).

(** Milliseconds the busy-wait of a relay pulse still has to wait. *)
Definition pulse_left (activateTime now : Z) : nat :=
  Z.to_nat (800 - Word.usub (Word.to_ulong now) activateTime).
Arguments pulse_left : simpl never.

(** [while ((millis() - activateTime) < 800) {}]: the clock is polled until
    800 ms have gone by; it moves on by one millisecond between two polls
    that still see the loop condition hold.  The result is the clock at
    loop exit. *)
Function spin (activateTime : Z) (now : Z)
    {measure (pulse_left activateTime) now} : Z :=
  if Z_lt_dec (Word.usub (Word.to_ulong now) activateTime) 800
  then spin activateTime (now + 1)
  else now.
Proof.
  intros activateTime now Hlt _.
  unfold pulse_left, Word.usub, Word.to_ulong, Word.modulus in *.
  pose proof (Z.mod_pos_bound (now mod 2 ^ 32 - activateTime) (2 ^ 32)) as Hb.
  assert (E : ((now + 1) mod 2 ^ 32 - activateTime) mod 2 ^ 32
              = (now mod 2 ^ 32 - activateTime) mod 2 ^ 32 + 1).
  { rewrite Zminus_mod_idemp_l.
    replace (now + 1 - activateTime) with ((now - activateTime) + 1) by lia.
    rewrite <- Zplus_mod_idemp_l, <- (Zminus_mod_idemp_l now).
    apply Z.mod_small. lia. }
  rewrite E. lia.
Defined.

Definition busy_wait (activateTime : Z) : M unit :=
  fun _ m => (tt, mkMachine (globals m) (ports m) (spin activateTime (clock m)), []).

(** ** Assignments to the globals *)

Definition set_roofState (v : RoofState) : M unit :=
  g <- get_globals ;;
  put_globals (mkGlobals v (previousRoofState g) (hoistOnTime g)
                         (ledToggleTime g) (ledState g)).

Definition set_previousRoofState (v : RoofState) : M unit :=
  g <- get_globals ;;
  put_globals (mkGlobals (roofState g) v (hoistOnTime g)
                         (ledToggleTime g) (ledState g)).

Definition set_hoistOnTime (v : Z) : M unit :=
  g <- get_globals ;;
  put_globals (mkGlobals (roofState g) (previousRoofState g) v
                         (ledToggleTime g) (ledState g)).

Definition set_ledToggleTime (v : Z) : M unit :=
  g <- get_globals ;;
  put_globals (mkGlobals (roofState g) (previousRoofState g) (hoistOnTime g)
                         v (ledState g)).

Definition set_ledState (v : bool) : M unit :=
  g <- get_globals ;;
  put_globals (mkGlobals (roofState g) (previousRoofState g) (hoistOnTime g)
                         (ledToggleTime g) v).

(** [a && b] and [a || b] of C, the right operand only evaluated when the
    left one does not decide. *)
Definition andM (a b : M bool) : M bool :=
  x <- a ;; if x then b else ret false.

Definition orM (a b : M bool) : M bool :=
  x <- a ;; if x then ret true else b.

(** [digitalRead(p) == v] and [digitalRead(p) != v]. *)
Definition reads (p : Pin) (v : Level) : M bool :=
  x <- digitalRead p ;; ret (Level_eqb x v).

Definition reads_not (p : Pin) (v : Level) : M bool :=
  x <- digitalRead p ;; ret (negb (Level_eqb x v)).

(** [roofState == v]. *)
Definition state_is (v : RoofState) : M bool :=
  g <- get_globals ;; ret (RoofState_eqb (roofState g) v).

(** ** The functions of the sketch *)

(** Switch off all motor relays. *)
Definition motorOff : M unit :=
  digitalWrite pinRelayOpen HIGH ;;
  digitalWrite pinRelayClose HIGH ;;
  delay 1000.

(** Switch on relays to move motor rev. *)
Definition motorReverse : M unit :=
  motorOff ;;
  digitalWrite pinRelayOpen LOW ;;
  activateTime <- millis ;;
  busy_wait activateTime ;;
  digitalWrite pinRelayOpen HIGH ;;
  now <- millis ;;
  set_hoistOnTime (Word.to_long now).

(** Switch on relays to fwd motor. *)
Definition motorFwd : M unit :=
  motorOff ;;
  digitalWrite pinRelayClose LOW ;;
  activateTime <- millis ;;
  busy_wait activateTime ;;
  digitalWrite pinRelayClose HIGH ;;
  now <- millis ;;
  set_hoistOnTime (Word.to_long now).

(** Duration in milliseconds that the roof motors have been running: the
    difference is taken in [unsigned long] and returned as a [long]. *)
Definition roofMotorRunDuration : M Z :=
  moving <- orM (state_is roofOpening) (state_is roofClosing) ;;
  if moving then
    now <- millis ;;
    g <- get_globals ;;
    ret (Word.to_long (Word.usub now (hoistOnTime g)))
  else ret 0.

Definition safetyCutout : M unit :=
  d <- roofMotorRunDuration ;;
  when (20000 <? d)
    (hit <- orM (andM (state_is roofOpening) (reads pinLimitSwitchOpen HIGH))
                (andM (state_is roofClosing) (reads pinLimitSwitchClose HIGH)) ;;
     when hit (set_roofState roofStopped)).

Definition toggleLed (duration : Z) : M unit :=
  now <- millis ;;
  g <- get_globals ;;
  when (Word.to_ulong duration <? Word.usub now (ledToggleTime g))
    (t <- millis ;;
     set_ledToggleTime (Word.to_long t) ;;
     g <- get_globals ;;
     if negb (ledState g)
     then set_ledState true ;; digitalWrite ledPin HIGH
     else set_ledState false ;; digitalWrite ledPin LOW).

Definition handleLEDs : M unit :=
  closed <- andM (reads pinLimitSwitchClose HIGH) (reads pinLimitSwitchOpen LOW) ;;
  if closed then toggleLed 50
  else
    opened <- andM (reads pinLimitSwitchOpen HIGH) (reads pinLimitSwitchClose LOW) ;;
    if opened then toggleLed 1000
    else digitalWrite ledPin LOW.

(** Handle the state of the roof. Act on state change. *)
Definition handleState : M unit :=
  handleLEDs ;;
  safetyCutout ;;
  g <- get_globals ;;
  when (negb (RoofState_eqb (roofState g) (previousRoofState g)))
    (set_previousRoofState (roofState g) ;;
     opening <- state_is roofOpening ;;
     if opening then motorFwd
     else
       closing <- state_is roofClosing ;;
       if closing then motorReverse else motorOff).

Definition stringCallback (myString : string) : M unit :=
  openState <- digitalRead pinLimitSwitchOpen ;;
  closeState <- digitalRead pinLimitSwitchClose ;;
  if String.eqb myString "OPEN" then
    parked <- andM (reads parkTelescopeRA LOW) (reads parkTelescopeDEC LOW) ;;
    (if parked then set_roofState roofOpening
     else sendString "NOTELESCOPEPARK") ;;
    set_roofState roofOpening
  else if String.eqb myString "CLOSE" then
    parked <- andM (reads parkTelescopeRA LOW) (reads parkTelescopeDEC LOW) ;;
    (if parked then set_roofState roofClosing
     else sendString "NOTELESCOPEPARK") ;;
    set_roofState roofClosing
  else if String.eqb myString "ABORT" then
    set_roofState roofStopped
  else if String.eqb myString "QUERY" then
    unparked <- andM (reads_not parkTelescopeRA LOW)
                     (reads_not parkTelescopeDEC LOW) ;;
    if unparked then sendString "NOTELESCOPEPARK"
    else if Level_eqb openState HIGH && Level_eqb closeState LOW
    then sendString "OPEN"
    else if Level_eqb closeState HIGH && Level_eqb openState LOW
    then sendString "CLOSED"
    else sendString "UNKNOWN"
  else ret tt.

(** [setup()]: the [pinMode] calls and the Firmata set-up write no level and
    touch no global; what is left is [motorOff()]. *)
Definition setup : M unit := motorOff.

(** ** Running the sketch *)

(** The globals as their initialisers leave them. *)
Definition initial_globals : Globals :=
  mkGlobals roofStopped roofStopped 0 0 false.

(** The machine at power-up: the levels [power_up] of the output pins are
    whatever the board gives them before the first write. *)
Definition power_on (power_up : Ports) (now : Z) : Machine :=
  mkMachine initial_globals power_up now.

(** What happens after [setup()]: the callback runs on a received string,
    or [loop()] gets to [handleState()] when the clock shows [now]. *)
Inductive Input :=
| Command (myString : string) (sens : Sensors)
| Tick (now : Z) (sens : Sensors).

Definition at_time (now : Z) (m : Machine) : Machine :=
  mkMachine (globals m) (ports m) now.

Definition step (i : Input) (m : Machine) : Machine * list Event :=
  match i with
  | Command myString sens => exec (stringCallback myString) sens m
  | Tick now sens => exec handleState sens (at_time now m)
  end.

Fixpoint run (ins : list Input) (m : Machine) : Machine * list Event :=
  match ins with
  | [] => (m, [])
  | i :: rest =>
      let '(m1, e1) := step i m in
      let '(m2, e2) := run rest m1 in
      (m2, e1 ++ e2)
  end.

(** The whole execution: [setup()] at power-up, then the inputs. The
    sensors are not read by [setup()]. *)
Definition boot (power_up : Ports) (now : Z) (sens : Sensors)
  : Machine * list Event :=
  exec setup sens (power_on power_up now).

Definition execution (power_up : Ports) (now : Z) (sens : Sensors)
    (ins : list Input) : Machine * list Event :=
  let '(m0, e0) := boot power_up now sens in
  let '(m1, e1) := run ins m0 in
  (m1, e0 ++ e1).

(** ** Observations on event lists *)

Definition is_relay (p : Pin) : bool :=
  match p with
  | pinRelayOpen | pinRelayClose => true
  | _ => false
  end.

Definition relay_write (e : Event) : bool :=
  match e with
  | EvWrite p _ _ => is_relay p
  | EvSend _ => false
  end.

(** The writes to the two relay pins. *)
Definition relay_events (ev : list Event) : list Event := filter relay_write ev.

(** The strings sent to the host. *)
Fixpoint replies (ev : list Event) : list string :=
  match ev with
  | [] => []
  | EvSend s :: rest => s :: replies rest
  | EvWrite _ _ _ :: rest => replies rest
  end.

(** The levels of the output pins after each event of [ev], starting from
    the levels [ps]. *)
Fixpoint port_history (ps : Ports) (ev : list Event) : list Ports :=
  match ev with
  | [] => []
  | EvWrite p v _ :: rest =>
      let ps' := write_port p v ps in ps' :: port_history ps' rest
  | EvSend _ :: rest => ps :: port_history ps rest
  end.

(** The relays are active-low. *)
Definition energized (v : Level) : bool := Level_eqb v LOW.

Definition both_energized (ps : Ports) : bool :=
  energized (relayOpen ps) && energized (relayClose ps).

Definition both_released (ps : Ports) : bool :=
  Level_eqb (relayOpen ps) HIGH && Level_eqb (relayClose ps) HIGH.

(** The park interlock: both park sensors read LOW. *)
Definition interlock (sens : Sensors) : bool :=
  Level_eqb (parkRA sens) LOW && Level_eqb (parkDEC sens) LOW.

Definition parked : Sensors := mkSensors LOW LOW LOW LOW.

(** ** Definitions used to state and prove the properties *)

Definition with_hoistOnTime (v : Z) (g : Globals) : Globals :=
  mkGlobals (roofState g) (previousRoofState g) v (ledToggleTime g) (ledState g).

Definition with_roofState (v : RoofState) (g : Globals) : Globals :=
  mkGlobals v (previousRoofState g) (hoistOnTime g) (ledToggleTime g) (ledState g).

Definition with_previousRoofState (v : RoofState) (g : Globals) : Globals :=
  mkGlobals (roofState g) v (hoistOnTime g) (ledToggleTime g) (ledState g).

Definition applied (m : Machine) : Machine :=
  mkMachine (with_previousRoofState (roofState (globals m)) (globals m))
            (ports m) (clock m).

(** The levels of the output pins once the writes of [ev] are done. *)
Definition replay (ps : Ports) (ev : list Event) : Ports :=
  fold_left (fun acc e => match e with
                          | EvWrite p v _ => write_port p v acc
                          | EvSend _ => acc
                          end) ev ps.

(** Event lists that only write the LED pin. *)
Definition led_only (ev : list Event) : Prop :=
  Forall (fun e => exists v t, e = EvWrite ledPin v t) ev.

(** Event lists that only send strings. *)
Definition sends_only (ev : list Event) : Prop :=
  Forall (fun e => exists s, e = EvSend s) ev.

(** Two sets of globals that differ at most in the LED bookkeeping. *)
Definition same_roof (g g' : Globals) : Prop :=
  roofState g' = roofState g /\
  previousRoofState g' = previousRoofState g /\
  hoistOnTime g' = hoistOnTime g.

(** Whether [safetyCutout] stops the roof: the run duration is over
    20000 and the limit switch of the direction of travel reads HIGH. *)
Definition run_duration (g : Globals) (now : Z) : Z :=
  if RoofState_eqb (roofState g) roofOpening || RoofState_eqb (roofState g) roofClosing
  then Word.to_long (Word.usub (Word.to_ulong now) (hoistOnTime g))
  else 0.

Definition cutout_fires (g : Globals) (now : Z) (sens : Sensors) : bool :=
  (20000 <? run_duration g now)
  && ((RoofState_eqb (roofState g) roofOpening && Level_eqb (limitOpen sens) HIGH)
      || (RoofState_eqb (roofState g) roofClosing && Level_eqb (limitClose sens) HIGH)).

(** The part of [handleState] that acts on a change of state. *)
Definition act_on_change : M unit :=
  g <- get_globals ;;
  when (negb (RoofState_eqb (roofState g) (previousRoofState g)))
    (set_previousRoofState (roofState g) ;;
     opening <- state_is roofOpening ;;
     if opening then motorFwd
     else
       closing <- state_is roofClosing ;;
       if closing then motorReverse else motorOff).

Definition relays (ps : Ports) : Level * Level := (relayOpen ps, relayClose ps).

(** Event lists without a write to a relay pin. *)
Definition quiet (ev : list Event) : Prop :=
  Forall (fun e => relay_write e = false) ev.

(** At most one relay energized: not both outputs LOW. *)
Definition safe (ps : Ports) : Prop := both_energized ps = false.

Definition moving_or_stopped (st : RoofState) : Prop :=
  st = roofStopped \/ st = roofOpening \/ st = roofClosing.

Definition limit_open_reached : Sensors := mkSensors HIGH LOW LOW LOW.

Definition ra_unparked : Sensors := mkSensors LOW HIGH HIGH LOW.

Definition idle_machine : Machine :=
  mkMachine initial_globals (mkPorts HIGH HIGH LOW) 1000.

(** ** The loop and the shape of relay traces *)

(** One pass of [loop()]: the strings Firmata has pending are handed to the
    callback, each with the sensors as they read then, and [handleState()]
    runs when the clock shows [now]. *)
Definition received (pending : list (string * Sensors)) : list Input :=
  map (fun c => Command (fst c) (snd c)) pending.

Definition loop (pending : list (string * Sensors)) (now : Z) (sens : Sensors)
    (m : Machine) : Machine * list Event :=
  run (received pending ++ [Tick now sens]) m.

(** Relay writes that come in blocks: both outputs written HIGH, either
    alone or followed 1000 ms later by one output written LOW and 800 ms
    after that written HIGH again. *)
Inductive pulse_train : list Event -> Prop :=
| train_end : pulse_train []
| train_off t rest :
    pulse_train rest ->
    pulse_train (EvWrite pinRelayOpen HIGH t :: EvWrite pinRelayClose HIGH t :: rest)
| train_pulse p t rest :
    is_relay p = true ->
    pulse_train rest ->
    pulse_train (EvWrite pinRelayOpen HIGH t :: EvWrite pinRelayClose HIGH t ::
                 EvWrite p LOW (t + 1000) :: EvWrite p HIGH (t + 1800) :: rest).

(** The roof state a recognized state-setting command assigns. *)
Definition commanded (myString : string) : option RoofState :=
  if String.eqb myString "OPEN" then Some roofOpening
  else if String.eqb myString "CLOSE" then Some roofClosing
  else if String.eqb myString "ABORT" then Some roofStopped
  else None.

(** The roof state as [safetyCutout] leaves it in a tick at [now]. *)
Definition resolved (g : Globals) (now : Z) (sens : Sensors) : RoofState :=
  if cutout_fires g now sens then roofStopped else roofState g.

Definition with_led (v : Level) (ps : Ports) : Ports :=
  mkPorts (relayOpen ps) (relayClose ps) v.

Definition settled_at (st : RoofState) (m : Machine) : Prop :=
  roofState (globals m) = st /\ previousRoofState (globals m) = st.

(** Inputs that are not an OPEN or CLOSE command, and sample machines. *)

Definition closing_requested : Machine :=
  mkMachine (mkGlobals roofClosing roofOpening 2800 0 false)
            (mkPorts HIGH HIGH LOW) 5000.

Definition abort_requested : Machine :=
  mkMachine (mkGlobals roofStopped roofOpening 2800 0 false)
            (mkPorts HIGH HIGH LOW) 5000.

Definition opening_machine : Machine :=
  mkMachine (mkGlobals roofOpening roofOpening 2800 0 false)
            (mkPorts HIGH HIGH LOW) 2800.

(** A motion whose pulse ended just before millis() wraps. *)
Definition wrapping_machine : Machine :=
  mkMachine (mkGlobals roofOpening roofOpening (Word.to_long (2 ^ 32 - 100)) 0 false)
            (mkPorts HIGH HIGH LOW) (2 ^ 32 - 100).

Definition not_a_motion_command (i : Input) : Prop :=
  match i with
  | Command myString _ => myString <> "OPEN" /\ myString <> "CLOSE"
  | Tick _ _ => True
  end.


Definition closed_limit : Sensors := mkSensors LOW HIGH LOW LOW.

(** * Proofs *)

(** ** The busy-wait *)

Lemma usub_succ activateTime now :
  Word.usub (Word.to_ulong now) activateTime < 800 ->
  Word.usub (Word.to_ulong (now + 1)) activateTime
  = Word.usub (Word.to_ulong now) activateTime + 1.
Proof.
  unfold Word.usub, Word.to_ulong, Word.modulus. intros H.
  rewrite Zminus_mod_idemp_l.
  replace (now + 1 - activateTime) with ((now - activateTime) + 1) by lia.
  rewrite <- Zplus_mod_idemp_l.
  rewrite <- (Zminus_mod_idemp_l now).
  apply Z.mod_small.
  pose proof (Z.mod_pos_bound (now mod 2 ^ 32 - activateTime) (2 ^ 32)).
  lia.
Qed.

Lemma usub_nonneg a b : 0 <= Word.usub a b.
Proof.
  unfold Word.usub, Word.to_ulong, Word.modulus.
  pose proof (Z.mod_pos_bound (a - b) (2 ^ 32)). lia.
Qed.

Lemma pulse_left_step activateTime now :
  Word.usub (Word.to_ulong now) activateTime < 800 ->
  pulse_left activateTime now = S (pulse_left activateTime (now + 1)).
Proof.
  intros H. unfold pulse_left. rewrite usub_succ by exact H.
  pose proof (usub_nonneg (Word.to_ulong now) activateTime). lia.
Qed.

(** The loop stops, after exactly the milliseconds that were left. *)
Lemma spin_exit activateTime now :
  spin activateTime now = now + Z.of_nat (pulse_left activateTime now).
Proof.
  functional induction (spin activateTime now) as [now Hlt _ IH|now Hge _].
  - rewrite IH, (pulse_left_step _ _ Hlt). lia.
  - unfold pulse_left. lia.
Qed.

(** Entered when the pulse starts, the loop exits 800 ms later. *)
Lemma spin_pulse now : spin (Word.to_ulong now) now = now + 800.
Proof.
  rewrite spin_exit. unfold pulse_left, Word.usub.
  rewrite Z.sub_diag. reflexivity.
Qed.

Global Opaque spin.

(** ** The relay driver *)

Lemma motorOff_run sens m :
  motorOff sens m =
  (tt, mkMachine (globals m) (mkPorts HIGH HIGH (led (ports m))) (clock m + 1000),
   [EvWrite pinRelayOpen HIGH (clock m); EvWrite pinRelayClose HIGH (clock m)]).
Proof. reflexivity. Qed.

Lemma motorFwd_run sens m :
  motorFwd sens m =
  (tt, mkMachine (with_hoistOnTime (Word.to_long (Word.to_ulong (clock m + 1800)))
                                   (globals m))
                 (mkPorts HIGH HIGH (led (ports m))) (clock m + 1800),
   [EvWrite pinRelayOpen HIGH (clock m); EvWrite pinRelayClose HIGH (clock m);
    EvWrite pinRelayClose LOW (clock m + 1000);
    EvWrite pinRelayClose HIGH (clock m + 1800)]).
Proof.
  unfold motorFwd, bind, busy_wait, millis, digitalWrite, set_hoistOnTime,
    get_globals, put_globals, with_hoistOnTime.
  rewrite motorOff_run. cbn -[Word.to_ulong Word.to_long].
  rewrite spin_pulse.
  replace (clock m + 1000 + 800) with (clock m + 1800) by lia.
  reflexivity.
Qed.

Lemma motorReverse_run sens m :
  motorReverse sens m =
  (tt, mkMachine (with_hoistOnTime (Word.to_long (Word.to_ulong (clock m + 1800)))
                                   (globals m))
                 (mkPorts HIGH HIGH (led (ports m))) (clock m + 1800),
   [EvWrite pinRelayOpen HIGH (clock m); EvWrite pinRelayClose HIGH (clock m);
    EvWrite pinRelayOpen LOW (clock m + 1000);
    EvWrite pinRelayOpen HIGH (clock m + 1800)]).
Proof.
  unfold motorReverse, bind, busy_wait, millis, digitalWrite, set_hoistOnTime,
    get_globals, put_globals, with_hoistOnTime.
  rewrite motorOff_run. cbn -[Word.to_ulong Word.to_long].
  rewrite spin_pulse.
  replace (clock m + 1000 + 800) with (clock m + 1800) by lia.
  reflexivity.
Qed.

(** ** The command handler *)

Section Callback.

Variable sens : Sensors.
Variable m : Machine.

Lemma machine_eta : mkMachine (globals m) (ports m) (clock m) = m.
Proof. destruct m; reflexivity. Qed.

Lemma open_run :
  exec (stringCallback "OPEN") sens m =
  (mkMachine (with_roofState roofOpening (globals m)) (ports m) (clock m),
   if interlock sens then [] else [EvSend "NOTELESCOPEPARK"]).
Proof. destruct sens as [lo lc [|] [|]]; reflexivity. Qed.

Lemma close_run :
  exec (stringCallback "CLOSE") sens m =
  (mkMachine (with_roofState roofClosing (globals m)) (ports m) (clock m),
   if interlock sens then [] else [EvSend "NOTELESCOPEPARK"]).
Proof. destruct sens as [lo lc [|] [|]]; reflexivity. Qed.

Lemma abort_run :
  exec (stringCallback "ABORT") sens m =
  (mkMachine (with_roofState roofStopped (globals m)) (ports m) (clock m), []).
Proof. reflexivity. Qed.

(** The reply to QUERY, as the nested conditionals compute it. *)
Lemma query_run :
  exec (stringCallback "QUERY") sens m =
  (m, [EvSend
         (if negb (Level_eqb (parkRA sens) LOW) && negb (Level_eqb (parkDEC sens) LOW)
          then "NOTELESCOPEPARK"
          else if Level_eqb (limitOpen sens) HIGH && Level_eqb (limitClose sens) LOW
          then "OPEN"
          else if Level_eqb (limitClose sens) HIGH && Level_eqb (limitOpen sens) LOW
          then "CLOSED"
          else "UNKNOWN")]).
Proof.
  destruct sens as [[|] [|] [|] [|]]; reflexivity.
Qed.

Lemma other_run (myString : string) :
  myString <> "OPEN" -> myString <> "CLOSE" ->
  myString <> "ABORT" -> myString <> "QUERY" ->
  exec (stringCallback myString) sens m = (m, []).
Proof.
  intros HO HC HA HQ.
  apply String.eqb_neq in HO, HC, HA, HQ.
  unfold exec, stringCallback, bind, digitalRead. cbn.
  rewrite HO, HC, HA, HQ. reflexivity.
Qed.

End Callback.

(** ** One pass of [handleState] *)

Lemma toggleLed_run duration sens m :
  exists g' ev,
    toggleLed duration sens m = (tt, mkMachine g' (replay (ports m) ev) (clock m), ev)
    /\ same_roof (globals m) g' /\ led_only ev.
Proof.
  destruct m as [[rs pv h lt ls] [ro rc l] c].
  unfold toggleLed, bind, millis, get_globals, when. cbn -[Word.to_ulong Word.to_long Word.usub].
  destruct (_ <? _).
  - destruct ls; cbn -[Word.to_ulong Word.to_long Word.usub].
    + exists (mkGlobals rs pv h (Word.to_long (Word.to_ulong c)) false),
        [EvWrite ledPin LOW c].
      repeat split. repeat constructor; eauto.
    + exists (mkGlobals rs pv h (Word.to_long (Word.to_ulong c)) true),
        [EvWrite ledPin HIGH c].
      repeat split. repeat constructor; eauto.
  - exists (mkGlobals rs pv h lt ls), []. repeat split. constructor.
Qed.

Lemma handleLEDs_run sens m :
  exists g' ev,
    handleLEDs sens m = (tt, mkMachine g' (replay (ports m) ev) (clock m), ev)
    /\ same_roof (globals m) g' /\ led_only ev.
Proof.
  assert (Hoff : exists g' ev,
    digitalWrite ledPin LOW sens m = (tt, mkMachine g' (replay (ports m) ev) (clock m), ev)
    /\ same_roof (globals m) g' /\ led_only ev).
  { exists (globals m), [EvWrite ledPin LOW (clock m)].
    repeat split. repeat constructor; eauto. }
  pose proof (toggleLed_run 50 sens m) as H50.
  pose proof (toggleLed_run 1000 sens m) as H1000.
  destruct sens as [[|] [|] ra dec].
  - exact Hoff.
  - destruct H50 as (g' & ev & E & Hg & Hev). exists g', ev.
    split; [|split; assumption].
    unfold handleLEDs, bind, andM, reads, digitalRead in *. cbn in *.
    rewrite E. reflexivity.
  - destruct H1000 as (g' & ev & E & Hg & Hev). exists g', ev.
    split; [|split; assumption].
    unfold handleLEDs, bind, andM, reads, digitalRead in *. cbn in *.
    rewrite E. reflexivity.
  - exact Hoff.
Qed.

Lemma roofMotorRunDuration_run sens m :
  roofMotorRunDuration sens m = (run_duration (globals m) (clock m), m, []).
Proof.
  destruct m as [[rs pv h lt ls] ps c]. destruct rs; reflexivity.
Qed.

Lemma safetyCutout_run sens m :
  safetyCutout sens m =
  (tt, if cutout_fires (globals m) (clock m) sens
       then mkMachine (with_roofState roofStopped (globals m)) (ports m) (clock m)
       else m, []).
Proof.
  unfold safetyCutout, bind, cutout_fires. rewrite roofMotorRunDuration_run.
  destruct (20000 <? _); [|reflexivity].
  destruct m as [[rs pv h lt ls] ps c].
  destruct rs, sens as [[|] [|] ra dec]; reflexivity.
Qed.

Lemma handleState_parts :
  handleState = (handleLEDs ;; safetyCutout ;; act_on_change).
Proof. reflexivity. Qed.

Lemma act_on_change_run sens m :
  act_on_change sens m =
  if RoofState_eqb (roofState (globals m)) (previousRoofState (globals m))
  then (tt, m, [])
  else match roofState (globals m) with
       | roofOpening => motorFwd sens (applied m)
       | roofClosing => motorReverse sens (applied m)
       | _ => motorOff sens (applied m)
       end.
Proof.
  destruct m as [[rs pv h lt ls] ps c].
  destruct rs, pv; reflexivity.
Qed.

Lemma cutout_fires_same g g' now sens :
  same_roof g g' -> cutout_fires g' now sens = cutout_fires g now sens.
Proof.
  intros (Hs & _ & Hh). unfold cutout_fires, run_duration.
  rewrite Hs, Hh. reflexivity.
Qed.

(** [handleState] as its three parts, the LED part summarised. *)
Lemma handleState_run sens m :
  exists g1 ev1,
    same_roof (globals m) g1 /\ led_only ev1 /\
    let m1 := mkMachine g1 (replay (ports m) ev1) (clock m) in
    let m2 := if cutout_fires (globals m) (clock m) sens
              then mkMachine (with_roofState roofStopped g1) (ports m1) (clock m)
              else m1 in
    handleState sens m =
    (tt, snd (fst (act_on_change sens m2)), ev1 ++ snd (act_on_change sens m2)).
Proof.
  destruct (handleLEDs_run sens m) as (g1 & ev1 & E & Hg & Hev).
  exists g1, ev1. split; [exact Hg|]. split; [exact Hev|].
  cbn zeta. rewrite handleState_parts. unfold bind at 1. rewrite E.
  unfold bind. rewrite safetyCutout_run. cbn [globals clock ports].
  rewrite (cutout_fires_same _ _ _ _ Hg).
  destruct (act_on_change sens _) as [[[] m3] ev3]. reflexivity.
Qed.

(** ** Event lists and pin levels *)

Lemma led_only_quiet ev : led_only ev -> quiet ev.
Proof.
  unfold led_only, quiet. apply Forall_impl.
  intros e (v & t & ->). reflexivity.
Qed.

Lemma quiet_write p v ps : is_relay p = false -> relays (write_port p v ps) = relays ps.
Proof. destruct p; intros H; try discriminate H; reflexivity. Qed.

Lemma quiet_replay ev : quiet ev -> forall ps, relays (replay ps ev) = relays ps.
Proof.
  induction 1 as [|e ev He _ IH]; intros ps; [reflexivity|].
  unfold replay in *. cbn [fold_left]. rewrite IH.
  destruct e as [p v t|]; [apply quiet_write; exact He | reflexivity].
Qed.

Lemma quiet_history ev :
  quiet ev -> forall ps, Forall (fun q => relays q = relays ps) (port_history ps ev).
Proof.
  induction 1 as [|e ev He _ IH]; intros ps; [constructor|].
  destruct e as [p v t|]; cbn [port_history].
  - constructor; [apply quiet_write; exact He|].
    rewrite <- (quiet_write p v ps He). apply IH.
  - constructor; [reflexivity | apply IH].
Qed.

Lemma quiet_relay_events ev : quiet ev -> relay_events ev = [].
Proof.
  induction 1 as [|e ev He _ IH]; [reflexivity|].
  unfold relay_events in *. cbn [filter]. rewrite He. exact IH.
Qed.

Lemma replay_app ps e1 e2 : replay ps (e1 ++ e2) = replay (replay ps e1) e2.
Proof. unfold replay. apply fold_left_app. Qed.

Lemma port_history_app e1 : forall ps e2,
  port_history ps (e1 ++ e2) = port_history ps e1 ++ port_history (replay ps e1) e2.
Proof.
  induction e1 as [|e e1 IH]; intros ps e2; [reflexivity|].
  destruct e as [p v t|]; cbn [app port_history]; rewrite IH; reflexivity.
Qed.

Lemma relay_events_app e1 e2 :
  relay_events (e1 ++ e2) = relay_events e1 ++ relay_events e2.
Proof. apply filter_app. Qed.

Lemma safe_relays ps q : relays q = relays ps -> safe ps -> safe q.
Proof.
  unfold relays, safe, both_energized. intros E. injection E as -> ->. tauto.
Qed.

Lemma released_relays ps q :
  relays q = relays ps -> both_released ps = true -> both_released q = true.
Proof.
  unfold relays, both_released. intros E. injection E as -> ->. tauto.
Qed.

Lemma released_safe ps : both_released ps = true -> safe ps.
Proof.
  unfold both_released, safe, both_energized.
  destruct (relayOpen ps), (relayClose ps); cbn; congruence.
Qed.

(** ** What a pass of [handleState] does to the roof state and the relays *)

Lemma act_on_change_summary sens m :
  let r := act_on_change sens m in
  roofState (globals (snd (fst r))) = roofState (globals m)
  /\ previousRoofState (globals (snd (fst r))) = roofState (globals m)
  /\ ports (snd (fst r)) = replay (ports m) (snd r)
  /\ (both_released (ports m) = true ->
      Forall safe (port_history (ports m) (snd r))
      /\ both_released (ports (snd (fst r))) = true).
Proof.
  cbn zeta. rewrite act_on_change_run.
  destruct m as [[rs pv h lt ls] [ro rc l] c]. cbn [globals roofState previousRoofState].
  destruct (RoofState_eqb rs pv) eqn:E.
  - cbn. repeat split; try constructor; try assumption.
    destruct rs, pv; try discriminate E; reflexivity.
  - destruct rs; rewrite ?motorOff_run, ?motorFwd_run, ?motorReverse_run;
      cbn; repeat split; repeat constructor; destruct rc; reflexivity.
Qed.

Lemma tick_summary sens m :
  let r := exec handleState sens m in
  roofState (globals (fst r)) =
    (if cutout_fires (globals m) (clock m) sens then roofStopped
     else roofState (globals m))
  /\ previousRoofState (globals (fst r)) = roofState (globals (fst r))
  /\ ports (fst r) = replay (ports m) (snd r)
  /\ (both_released (ports m) = true ->
      Forall safe (port_history (ports m) (snd r))
      /\ both_released (ports (fst r)) = true).
Proof.
  destruct (handleState_run sens m) as (g1 & ev1 & Hg & Hev & E).
  cbn zeta in E. unfold exec. rewrite E. clear E. cbn [fst snd].
  apply led_only_quiet in Hev.
  set (m2 := if cutout_fires _ _ _ then _ else _).
  destruct (act_on_change_summary sens m2) as (Hrs & Hpv & Hps & Hsafe).
  cbn zeta in *.
  assert (Hm2 : ports m2 = replay (ports m) ev1).
  { unfold m2. destruct (cutout_fires _ _ _); reflexivity. }
  assert (Hst : roofState (globals m2) =
                if cutout_fires (globals m) (clock m) sens then roofStopped
                else roofState (globals m)).
  { unfold m2. destruct (cutout_fires _ _ _); [reflexivity|apply Hg]. }
  split; [congruence|]. split; [congruence|].
  split; [rewrite replay_app, <- Hm2; exact Hps|].
  intros Hrel.
  assert (Hrel2 : both_released (ports m2) = true).
  { rewrite Hm2. apply (released_relays (ports m)); [apply quiet_replay|]; assumption. }
  destruct (Hsafe Hrel2) as (Hh & Hr). split; [|exact Hr].
  rewrite port_history_app, <- Hm2. apply Forall_app. split; [|exact Hh].
  eapply Forall_impl; [|apply quiet_history; exact Hev].
  intros q Hq. apply (safe_relays (ports m)); [exact Hq|].
  apply released_safe. exact Hrel.
Qed.

(** ** What the callback does to the roof state and the relays *)

Lemma callback_cases (myString : string) :
  myString = "OPEN" \/ myString = "CLOSE" \/ myString = "ABORT" \/ myString = "QUERY"
  \/ (myString <> "OPEN" /\ myString <> "CLOSE" /\
      myString <> "ABORT" /\ myString <> "QUERY").
Proof.
  destruct (String.string_dec myString "OPEN"); [tauto|].
  destruct (String.string_dec myString "CLOSE"); [tauto|].
  destruct (String.string_dec myString "ABORT"); [tauto|].
  destruct (String.string_dec myString "QUERY"); tauto.
Qed.

Lemma sends_only_quiet ev : sends_only ev -> quiet ev.
Proof.
  unfold sends_only, quiet. apply Forall_impl. intros e (s & ->). reflexivity.
Qed.

Lemma sends_only_replay ev : sends_only ev -> forall ps, replay ps ev = ps.
Proof.
  induction 1 as [|e ev (s & ->) _ IH]; intros ps; [reflexivity|apply IH].
Qed.

Lemma callback_summary myString sens m :
  let r := exec (stringCallback myString) sens m in
  (roofState (globals (fst r)) = roofState (globals m)
   \/ moving_or_stopped (roofState (globals (fst r))))
  /\ ports (fst r) = ports m
  /\ sends_only (snd r).
Proof.
  cbn zeta. unfold moving_or_stopped, sends_only.
  destruct (callback_cases myString) as [-> | [-> | [-> | [-> | (HO & HC & HA & HQ)]]]].
  - rewrite open_run. cbn. repeat split; [tauto|].
    destruct (interlock sens); repeat constructor; eauto.
  - rewrite close_run. cbn. repeat split; [tauto|].
    destruct (interlock sens); repeat constructor; eauto.
  - rewrite abort_run. cbn. repeat split; [tauto|constructor].
  - rewrite query_run. cbn. repeat split; [tauto|repeat constructor; eauto].
  - rewrite other_run by assumption. cbn. repeat split; [tauto|constructor].
Qed.

(** ** Invariants of an execution *)

Lemma step_summary i m :
  both_released (ports m) = true ->
  moving_or_stopped (roofState (globals m)) ->
  let r := step i m in
  Forall safe (port_history (ports m) (snd r))
  /\ ports (fst r) = replay (ports m) (snd r)
  /\ both_released (ports (fst r)) = true
  /\ moving_or_stopped (roofState (globals (fst r))).
Proof.
  intros Hrel Hst. destruct i as [myString sens|now sens]; cbn [step]; cbn zeta.
  - destruct (callback_summary myString sens m) as (Hrs & Hps & Hq).
    cbn zeta in *. rewrite Hps.
    split.
    { eapply Forall_impl; [|apply quiet_history, sends_only_quiet; exact Hq].
      intros q E. apply (safe_relays (ports m)); [exact E|].
      apply released_safe; exact Hrel. }
    split; [symmetry; apply sends_only_replay; exact Hq|].
    split; [exact Hrel|].
    destruct Hrs as [-> | H]; assumption.
  - destruct (tick_summary sens (at_time now m)) as (Hrs & _ & Hps & Hsafe).
    cbn zeta in *. cbn [at_time ports globals] in *.
    destruct (Hsafe Hrel) as (Hh & Hr).
    repeat split; try assumption.
    rewrite Hrs. destruct (cutout_fires _ _ _); [left; reflexivity|exact Hst].
Qed.

Lemma run_summary ins : forall m,
  both_released (ports m) = true ->
  moving_or_stopped (roofState (globals m)) ->
  let r := run ins m in
  Forall safe (port_history (ports m) (snd r))
  /\ ports (fst r) = replay (ports m) (snd r)
  /\ both_released (ports (fst r)) = true
  /\ moving_or_stopped (roofState (globals (fst r))).
Proof.
  induction ins as [|i rest IH]; intros m Hrel Hst; cbn zeta.
  - cbn. repeat split; try assumption. constructor.
  - cbn [run].
    destruct (step_summary i m Hrel Hst) as (Hh1 & Hp1 & Hr1 & Hs1).
    cbn zeta in *. destruct (step i m) as [m1 e1]. cbn [fst snd] in *.
    destruct (IH m1 Hr1 Hs1) as (Hh2 & Hp2 & Hr2 & Hs2).
    cbn zeta in *. destruct (run rest m1) as [m2 e2]. cbn [fst snd] in *.
    split; [rewrite port_history_app, <- Hp1; apply Forall_app; tauto|].
    split; [rewrite replay_app, <- Hp1; exact Hp2|].
    tauto.
Qed.

Lemma boot_summary power_up now sens :
  let r := boot power_up now sens in
  Forall safe (port_history power_up (snd r))
  /\ ports (fst r) = replay power_up (snd r)
  /\ both_released (ports (fst r)) = true
  /\ globals (fst r) = initial_globals.
Proof.
  destruct power_up as [ro rc l]. cbn.
  split; [|repeat split].
  repeat constructor.
Qed.

Lemma execution_summary power_up now sens ins :
  let r := execution power_up now sens ins in
  Forall safe (port_history power_up (snd r))
  /\ both_released (ports (fst r)) = true
  /\ moving_or_stopped (roofState (globals (fst r))).
Proof.
  cbn zeta. unfold execution.
  destruct (boot_summary power_up now sens) as (Hh0 & Hp0 & Hr0 & Hg0).
  cbn zeta in *. destruct (boot power_up now sens) as [m0 e0]. cbn [fst snd] in *.
  assert (Hs0 : moving_or_stopped (roofState (globals m0))).
  { rewrite Hg0. left. reflexivity. }
  destruct (run_summary ins m0 Hr0 Hs0) as (Hh1 & Hp1 & Hr1 & Hs1).
  cbn zeta in *. destruct (run ins m0) as [m1 e1]. cbn [fst snd] in *.
  split; [rewrite port_history_app, <- Hp0; apply Forall_app; tauto|].
  tauto.
Qed.

(** * The claims *)

(** C1. Along every execution (any levels of the pins at power-up, any
    sequence of commands and ticks) the levels of the output pins after
    each event, from the first write of [setup()] on, never have both
    relay outputs energized (LOW): one of the two is at HIGH. The settle
    delay and the pulse window of a direction change are among these
    instants, the levels being constant between two writes. *)
Theorem relays_never_both_energized power_up now sens ins :
  Forall (fun ps => both_energized ps = false
                    /\ (relayOpen ps = HIGH \/ relayClose ps = HIGH))
         (port_history power_up (snd (execution power_up now sens ins))).
Proof.
  destruct (execution_summary power_up now sens ins) as (H & _).
  cbn zeta in H. eapply Forall_impl; [|exact H].
  intros ps Hs. split; [exact Hs|].
  unfold safe, both_energized, energized in Hs.
  destruct (relayOpen ps), (relayClose ps); try discriminate Hs; tauto.
Qed.

Lemma cutout_fires_intro g now sens :
  20000 < run_duration g now ->
  (roofState g = roofOpening /\ limitOpen sens = HIGH)
  \/ (roofState g = roofClosing /\ limitClose sens = HIGH) ->
  cutout_fires g now sens = true.
Proof.
  intros Hd Hl. unfold cutout_fires.
  apply Z.ltb_lt in Hd. rewrite Hd.
  destruct Hl as [(-> & ->)|(-> & ->)]; reflexivity.
Qed.

Lemma released_levels ps :
  both_released ps = true -> relayOpen ps = HIGH /\ relayClose ps = HIGH.
Proof.
  unfold both_released. destruct (relayOpen ps), (relayClose ps);
    cbn; intros H; try discriminate H; tauto.
Qed.

Lemma cutout_needs_limit g now sens :
  (roofState g = roofOpening /\ limitOpen sens = LOW)
  \/ (roofState g = roofClosing /\ limitClose sens = LOW) ->
  cutout_fires g now sens = false.
Proof.
  intros Hl. unfold cutout_fires.
  destruct Hl as [(-> & ->)|(-> & ->)]; cbn; apply andb_false_r.
Qed.

(** C2, as the code has it. In a state reached by an execution, a tick in
    which roofState is Opening (respectively Closing), the run duration
    computed by [roofMotorRunDuration] exceeds 20000 ms and the open-limit
    (respectively close-limit) switch reads HIGH, that is asserted, sets
    roofState to Stopped and leaves both relay outputs de-energized. While
    the roof is Opening (respectively Closing) and that switch is not
    asserted (reads LOW), the tick leaves roofState as it is, however long
    the motion has lasted. *)
Theorem cutout_stops_once_limit_reached power_up t0 s0 ins now sens :
  let m := fst (execution power_up t0 s0 ins) in
  let r := step (Tick now sens) m in
  (20000 < result roofMotorRunDuration sens (at_time now m) ->
   (roofState (globals m) = roofOpening /\ limitOpen sens = HIGH)
   \/ (roofState (globals m) = roofClosing /\ limitClose sens = HIGH) ->
   roofState (globals (fst r)) = roofStopped
   /\ relayOpen (ports (fst r)) = HIGH /\ relayClose (ports (fst r)) = HIGH)
  /\ ((roofState (globals m) = roofOpening /\ limitOpen sens = LOW)
      \/ (roofState (globals m) = roofClosing /\ limitClose sens = LOW) ->
      roofState (globals (fst r)) = roofState (globals m)).
Proof.
  cbn zeta.
  destruct (execution_summary power_up t0 s0 ins) as (_ & Hrel & _).
  cbn zeta in Hrel.
  set (m := fst (execution power_up t0 s0 ins)) in *.
  destruct (tick_summary sens (at_time now m)) as (Hrs & _ & _ & Hsafe).
  cbn zeta in *. cbn [step]. cbn [at_time globals ports clock] in *.
  split.
  - intros Hd Hl.
    unfold result in Hd. rewrite roofMotorRunDuration_run in Hd. cbn in Hd.
    rewrite (cutout_fires_intro _ _ _ Hd Hl) in Hrs.
    split; [exact Hrs|].
    apply released_levels, Hsafe, Hrel.
  - intros Hl. rewrite (cutout_needs_limit _ now _ Hl) in Hrs. exact Hrs.
Qed.

Lemma cutout_stops_once_limit_reached_witness :
  let m := fst (execution (mkPorts LOW LOW LOW) 0 parked
                          [Command "OPEN" parked; Tick 1000 parked]) in
  let r := step (Tick 30000 limit_open_reached) m in
  let r' := step (Tick 4000000 parked) m in
  20000 < result roofMotorRunDuration limit_open_reached (at_time 30000 m)
  /\ roofState (globals m) = roofOpening
  /\ limitOpen limit_open_reached = HIGH
  /\ (roofState (globals (fst r)) = roofStopped
      /\ relayOpen (ports (fst r)) = HIGH /\ relayClose (ports (fst r)) = HIGH)
  /\ limitOpen parked = LOW
  /\ roofState (globals (fst r')) = roofState (globals m).
Proof.
  cbn zeta.
  split; [vm_compute; reflexivity|].
  split; [vm_compute; reflexivity|].
  split; [reflexivity|].
  split.
  - apply (cutout_stops_once_limit_reached (mkPorts LOW LOW LOW) 0 parked
             [Command "OPEN" parked; Tick 1000 parked] 30000 limit_open_reached).
    + vm_compute. reflexivity.
    + left. split; [vm_compute; reflexivity|reflexivity].
  - split; [reflexivity|].
    apply (cutout_stops_once_limit_reached (mkPorts LOW LOW LOW) 0 parked
             [Command "OPEN" parked; Tick 1000 parked] 4000000 parked).
    left. split; [vm_compute; reflexivity|reflexivity].
Defined.

(** C2 as stated fails: the roof has been Opening for 27.2 s, the open-limit
    switch has not been asserted (it reads LOW), and the tick leaves
    roofState at Opening. *)
Lemma cutout_without_limit_counterexample :
  let m := fst (execution (mkPorts LOW LOW LOW) 0 parked
                          [Command "OPEN" parked; Tick 1000 parked]) in
  let r := step (Tick 30000 parked) m in
  roofState (globals m) = roofOpening
  /\ result roofMotorRunDuration parked (at_time 30000 m) = 27200
  /\ limitOpen parked = LOW
  /\ roofState (globals (fst r)) = roofOpening
  /\ roofState (globals (fst r)) <> roofStopped.
Proof.
  cbn zeta. repeat split; try (vm_compute; reflexivity).
  vm_compute. discriminate.
Qed.

(** C3. An OPEN (respectively CLOSE) command received while the park
    interlock is not satisfied sends the reply NOTELESCOPEPARK and still
    sets roofState to Opening (respectively Closing). *)
Theorem park_interlock_is_advisory sens m :
  interlock sens = false ->
  (replies (snd (step (Command "OPEN" sens) m)) = ["NOTELESCOPEPARK"]
   /\ roofState (globals (fst (step (Command "OPEN" sens) m))) = roofOpening)
  /\ (replies (snd (step (Command "CLOSE" sens) m)) = ["NOTELESCOPEPARK"]
      /\ roofState (globals (fst (step (Command "CLOSE" sens) m))) = roofClosing).
Proof.
  intros H. cbn [step]. rewrite open_run, close_run, H. repeat split.
Qed.

Lemma park_interlock_is_advisory_witness :
  interlock ra_unparked = false
  /\ (replies (snd (step (Command "OPEN" ra_unparked) idle_machine))
        = ["NOTELESCOPEPARK"]
      /\ roofState (globals (fst (step (Command "OPEN" ra_unparked) idle_machine)))
        = roofOpening)
  /\ (replies (snd (step (Command "CLOSE" ra_unparked) idle_machine))
        = ["NOTELESCOPEPARK"]
      /\ roofState (globals (fst (step (Command "CLOSE" ra_unparked) idle_machine)))
        = roofClosing).
Proof.
  split; [reflexivity|].
  apply (park_interlock_is_advisory ra_unparked idle_machine). reflexivity.
Defined.

(** C5, at the failing input. The RA park sensor reads not parked (HIGH),
    the DEC sensor parked, the open-limit switch asserted: the interlock is
    not satisfied, and the reply to QUERY is OPEN, not NOTELESCOPEPARK. The
    same sensors make OPEN and CLOSE reply NOTELESCOPEPARK. *)
Theorem query_with_one_axis_unparked m :
  let sens := mkSensors HIGH LOW HIGH LOW in
  interlock sens = false
  /\ replies (snd (step (Command "QUERY" sens) m)) = ["OPEN"]
  /\ replies (snd (step (Command "OPEN" sens) m)) = ["NOTELESCOPEPARK"]
  /\ replies (snd (step (Command "CLOSE" sens) m)) = ["NOTELESCOPEPARK"].
Proof. repeat split. Qed.

(** C6. A QUERY processed while the park interlock is satisfied is answered
    OPEN when the open-limit switch is asserted and the close-limit switch
    is not, CLOSED in the converse case, UNKNOWN when both or neither are
    asserted. *)
Theorem query_reports_limit_switches sens m :
  interlock sens = true ->
  replies (snd (step (Command "QUERY" sens) m)) =
  [match limitOpen sens, limitClose sens with
   | HIGH, LOW => "OPEN"
   | LOW, HIGH => "CLOSED"
   | HIGH, HIGH | LOW, LOW => "UNKNOWN"
   end].
Proof.
  intros H. cbn [step]. rewrite query_run.
  destruct sens as [[|] [|] [|] [|]]; try discriminate H; reflexivity.
Qed.

Lemma query_reports_limit_switches_witness :
  interlock (mkSensors HIGH HIGH LOW LOW) = true
  /\ replies (snd (step (Command "QUERY" (mkSensors HIGH HIGH LOW LOW)) idle_machine))
     = ["UNKNOWN"].
Proof.
  split; [reflexivity|].
  apply (query_reports_limit_switches (mkSensors HIGH HIGH LOW LOW) idle_machine).
  reflexivity.
Defined.

(** C7. The events of a QUERY, the reply among them, are the same in any
    two machines (whatever roofState, previousRoofState, hoistOnTime, the
    clock or the history that led there) when the sensors read the same,
    and the command leaves each machine as it was. *)
Theorem query_depends_on_sensors_only sens m1 m2 :
  snd (step (Command "QUERY" sens) m1) = snd (step (Command "QUERY" sens) m2)
  /\ replies (snd (step (Command "QUERY" sens) m1))
     = replies (snd (step (Command "QUERY" sens) m2))
  /\ fst (step (Command "QUERY" sens) m1) = m1
  /\ fst (step (Command "QUERY" sens) m2) = m2.
Proof.
  cbn [step]. rewrite !query_run. repeat split.
Qed.

(** C4, as the code has it. A tick detects a state change into Opening
    when [safetyCutout] leaves roofState at Opening and previousRoofState
    is another state. The tick then writes both relay outputs HIGH, waits
    the 1000 ms settle delay, energizes one relay output (and only that
    one), keeps it energized for 800 ms and returns it to HIGH; hoistOnTime
    is recorded when the pulse ends, 800 ms after the energization. *)
Theorem opening_pulse now sens m :
  let r := step (Tick now sens) m in
  roofState (globals (fst (exec safetyCutout sens (at_time now m)))) = roofOpening ->
  previousRoofState (globals m) <> roofOpening ->
  exists p,
    is_relay p = true
    /\ relay_events (snd r) =
       [EvWrite pinRelayOpen HIGH now; EvWrite pinRelayClose HIGH now;
        EvWrite p LOW (now + 1000); EvWrite p HIGH (now + 1000 + 800)]
    /\ hoistOnTime (globals (fst r)) = Word.to_long (Word.to_ulong (now + 1000 + 800))
    /\ roofState (globals (fst r)) = roofOpening
    /\ previousRoofState (globals (fst r)) = roofOpening.
Proof.
  cbn zeta. intros Hcut Hprev. exists pinRelayClose. split; [reflexivity|].
  unfold exec in Hcut. rewrite safetyCutout_run in Hcut.
  cbn [at_time globals clock] in Hcut.
  destruct (cutout_fires (globals m) now sens) eqn:Hfire; [discriminate Hcut|].
  cbn [fst globals at_time] in Hcut.
  destruct (handleState_run sens (at_time now m)) as (g1 & ev1 & Hg & Hev & E).
  cbn zeta in E. cbn [at_time globals clock ports] in E. rewrite Hfire in E.
  cbn [step]. unfold exec. rewrite E. clear E. cbn [fst snd].
  destruct Hg as (Hs & Hp & Hh). cbn [at_time globals] in Hs, Hp, Hh.
  rewrite act_on_change_run. cbn [globals]. rewrite Hs, Hp, Hcut.
  destruct (previousRoofState (globals m)) eqn:Epv; try congruence;
    cbn [RoofState_eqb state_code Z.eqb]; rewrite motorFwd_run;
    cbn [fst snd]; rewrite relay_events_app,
      (quiet_relay_events _ (led_only_quiet _ Hev));
    cbn; replace (now + 1000 + 800) with (now + 1800) by lia.
  all: repeat split; congruence.
Qed.

Lemma opening_pulse_witness :
  let m := fst (step (Command "OPEN" parked) idle_machine) in
  let r := step (Tick 5000 parked) m in
  roofState (globals (fst (exec safetyCutout parked (at_time 5000 m)))) = roofOpening
  /\ previousRoofState (globals m) <> roofOpening
  /\ exists p,
      is_relay p = true
      /\ relay_events (snd r) =
         [EvWrite pinRelayOpen HIGH 5000; EvWrite pinRelayClose HIGH 5000;
          EvWrite p LOW (5000 + 1000); EvWrite p HIGH (5000 + 1000 + 800)]
      /\ hoistOnTime (globals (fst r)) = Word.to_long (Word.to_ulong (5000 + 1000 + 800))
      /\ roofState (globals (fst r)) = roofOpening
      /\ previousRoofState (globals (fst r)) = roofOpening.
Proof.
  cbn zeta.
  split; [reflexivity|]. split; [discriminate|].
  apply (opening_pulse 5000 parked (fst (step (Command "OPEN" parked) idle_machine))).
  - reflexivity.
  - discriminate.
Defined.

(** C4 as stated fails. After OPEN with the telescope parked, the tick at
    1000 ms detects the change into Opening. The output energized, at
    2000 ms, is pinRelayClose; pinRelayOpen is never written LOW; and
    hoistOnTime is 2800, the end of the pulse, not the energization. *)
Lemma opening_pulse_counterexample :
  let m := fst (execution (mkPorts LOW LOW LOW) 0 parked [Command "OPEN" parked]) in
  let r := step (Tick 1000 parked) m in
  roofState (globals m) = roofOpening
  /\ previousRoofState (globals m) = roofStopped
  /\ relay_events (snd r) =
     [EvWrite pinRelayOpen HIGH 1000; EvWrite pinRelayClose HIGH 1000;
      EvWrite pinRelayClose LOW 2000; EvWrite pinRelayClose HIGH 2800]
  /\ (forall t, ~ In (EvWrite pinRelayOpen LOW t) (snd r))
  /\ hoistOnTime (globals (fst r)) = 2800
  /\ hoistOnTime (globals (fst r)) <> 2000.
Proof.
  cbn zeta.
  assert (E : step (Tick 1000 parked)
                (fst (execution (mkPorts LOW LOW LOW) 0 parked [Command "OPEN" parked]))
              = (mkMachine (mkGlobals roofOpening roofOpening 2800 0 false)
                           (mkPorts HIGH HIGH LOW) 2800,
                 [EvWrite ledPin LOW 1000;
                  EvWrite pinRelayOpen HIGH 1000; EvWrite pinRelayClose HIGH 1000;
                  EvWrite pinRelayClose LOW 2000; EvWrite pinRelayClose HIGH 2800]))
    by (vm_compute; reflexivity).
  rewrite E. cbn [fst snd globals hoistOnTime].
  split; [reflexivity|]. split; [reflexivity|]. split; [reflexivity|].
  split; [|split; [reflexivity|discriminate]].
  intros t H. cbn [In] in H.
  repeat (destruct H as [H|H]; [discriminate H|]). exact H.
Qed.

Lemma with_roofState_same g : with_roofState (roofState g) g = g.
Proof. destruct g; reflexivity. Qed.

Lemma aborts_when_stopped (l : list Sensors) m :
  roofState (globals m) = roofStopped ->
  run (map (Command "ABORT") l) m = (m, []).
Proof.
  intros H. induction l as [|sens l IH]; [reflexivity|].
  cbn [map run step]. rewrite abort_run, <- H, with_roofState_same, machine_eta.
  rewrite IH. reflexivity.
Qed.

Lemma cutout_idle_when_stopped g now sens :
  roofState g = roofStopped -> cutout_fires g now sens = false.
Proof. intros H. unfold cutout_fires, run_duration. rewrite H. reflexivity. Qed.

Lemma tick_when_settled now sens m :
  roofState (globals m) = roofStopped ->
  previousRoofState (globals m) = roofStopped ->
  let r := step (Tick now sens) m in
  relay_events (snd r) = []
  /\ roofState (globals (fst r)) = roofStopped
  /\ previousRoofState (globals (fst r)) = roofStopped
  /\ relays (ports (fst r)) = relays (ports m).
Proof.
  intros Hs Hp. cbn zeta. cbn [step]. unfold exec.
  destruct (handleState_run sens (at_time now m)) as (g1 & ev1 & Hg & Hev & E).
  cbn zeta in E. cbn [at_time globals clock ports] in E.
  rewrite (cutout_idle_when_stopped _ _ _ Hs) in E.
  rewrite act_on_change_run in E. cbn [globals fst snd] in E.
  destruct Hg as (Hs1 & Hp1 & _). cbn [at_time globals] in Hs1, Hp1.
  rewrite Hs1, Hp1, Hs, Hp in E. cbn in E. rewrite E. cbn [fst snd globals ports].
  apply led_only_quiet in Hev.
  rewrite app_nil_r, (quiet_relay_events _ Hev), (quiet_replay _ Hev).
  repeat split; congruence.
Qed.

Lemma tick_with_pending_stop now sens m :
  roofState (globals m) = roofStopped ->
  previousRoofState (globals m) <> roofStopped ->
  let r := step (Tick now sens) m in
  relay_events (snd r) =
    [EvWrite pinRelayOpen HIGH now; EvWrite pinRelayClose HIGH now]
  /\ roofState (globals (fst r)) = roofStopped
  /\ previousRoofState (globals (fst r)) = roofStopped.
Proof.
  intros Hs Hp. cbn zeta. cbn [step]. unfold exec.
  destruct (handleState_run sens (at_time now m)) as (g1 & ev1 & Hg & Hev & E).
  cbn zeta in E. cbn [at_time globals clock ports] in E.
  rewrite (cutout_idle_when_stopped _ _ _ Hs) in E.
  rewrite act_on_change_run in E. cbn [globals fst snd] in E.
  destruct Hg as (Hs1 & Hp1 & _). cbn [at_time globals] in Hs1, Hp1.
  rewrite Hs1, Hp1, Hs in E. rewrite E. clear E.
  apply led_only_quiet in Hev.
  destruct (previousRoofState (globals m)); try congruence;
    cbn [RoofState_eqb state_code Z.eqb]; rewrite motorOff_run;
    cbn [fst snd]; rewrite relay_events_app, (quiet_relay_events _ Hev);
    cbn; repeat split; congruence.
Qed.

(** C8, as the code has it. ABORT sets roofState to Stopped in every state
    and sends nothing, and a run of ABORTs does what a single one does.
    While roofState is already Stopped, any number of further ABORTs leaves
    the machine exactly as it was, so the next tick does what it would have
    done without them: repeated ABORTs add no relay activity. That tick
    detects no change of state and writes to no relay pin when the stop has
    already been applied (previousRoofState is Stopped too, as at boot and
    after the tick that follows an ABORT); when it has not, the tick detects
    the pending change and writes both relay pins HIGH once, however many
    ABORTs were received. *)
Theorem abort_is_idempotent m sens (l : list Sensors) now sens' :
  (roofState (globals (fst (step (Command "ABORT" sens) m))) = roofStopped
   /\ snd (step (Command "ABORT" sens) m) = [])
  /\ run (map (Command "ABORT") (sens :: l)) m = step (Command "ABORT" sens) m
  /\ (roofState (globals m) = roofStopped ->
      let r := step (Tick now sens') (fst (run (map (Command "ABORT") l) m)) in
      run (map (Command "ABORT") l) m = (m, [])
      /\ r = step (Tick now sens') m
      /\ (previousRoofState (globals m) = roofStopped ->
          relay_events (snd r) = []
          /\ roofState (globals (fst r)) = roofStopped
          /\ previousRoofState (globals (fst r)) = roofStopped
          /\ relays (ports (fst r)) = relays (ports m))
      /\ (previousRoofState (globals m) <> roofStopped ->
          relay_events (snd r) =
            [EvWrite pinRelayOpen HIGH now; EvWrite pinRelayClose HIGH now]
          /\ roofState (globals (fst r)) = roofStopped
          /\ previousRoofState (globals (fst r)) = roofStopped))
  /\ (let r := step (Tick now sens') (fst (step (Command "ABORT" sens) m)) in
      roofState (globals (fst r)) = roofStopped
      /\ previousRoofState (globals (fst r)) = roofStopped).
Proof.
  split; [|split; [|split]].
  - cbn [step]. rewrite abort_run. split; reflexivity.
  - cbn [map run step]. rewrite abort_run.
    rewrite aborts_when_stopped by reflexivity. reflexivity.
  - intros Hs. cbn zeta. rewrite (aborts_when_stopped l m Hs). cbn [fst].
    split; [reflexivity|]. split; [reflexivity|]. split.
    + intros Hp. apply tick_when_settled; assumption.
    + intros Hp. apply tick_with_pending_stop; assumption.
  - cbn zeta. cbn [step]. rewrite abort_run. cbn [fst].
    destruct (tick_summary sens'
                (at_time now (mkMachine (with_roofState roofStopped (globals m))
                                        (ports m) (clock m))))
      as (Hrs & Hpv & _).
    cbn zeta in Hrs, Hpv. cbn [at_time globals with_roofState roofState] in Hrs.
    assert (Hst : roofState (globals (fst (exec handleState sens'
                    (at_time now (mkMachine (with_roofState roofStopped (globals m))
                                            (ports m) (clock m)))))) = roofStopped).
    { rewrite Hrs. destruct (cutout_fires _ _ _); reflexivity. }
    split; [exact Hst|]. rewrite Hpv. exact Hst.
Qed.

Lemma abort_is_idempotent_witness :
  let aborts := map (Command "ABORT") [parked; ra_unparked; parked] in
  roofState (globals idle_machine) = roofStopped
  /\ previousRoofState (globals idle_machine) = roofStopped
  /\ run aborts idle_machine = (idle_machine, [])
  /\ relay_events (snd (step (Tick 5000 parked) (fst (run aborts idle_machine)))) = []
  /\ roofState (globals abort_requested) = roofStopped
  /\ previousRoofState (globals abort_requested) <> roofStopped
  /\ relay_events (snd (step (Tick 5000 parked) (fst (run aborts abort_requested))))
     = [EvWrite pinRelayOpen HIGH 5000; EvWrite pinRelayClose HIGH 5000].
Proof.
  cbn zeta.
  destruct (abort_is_idempotent idle_machine parked [parked; ra_unparked; parked]
              5000 parked) as (_ & _ & H & _).
  destruct (H eq_refl) as (Hrun & _ & Htick & _).
  destruct (abort_is_idempotent abort_requested parked [parked; ra_unparked; parked]
              5000 parked) as (_ & _ & H' & _).
  destruct (H' eq_refl) as (_ & _ & _ & Hpending).
  split; [reflexivity|]. split; [reflexivity|]. split; [exact Hrun|].
  split; [exact (proj1 (Htick eq_refl))|].
  split; [reflexivity|]. split; [discriminate|].
  apply Hpending. discriminate.
Defined.

(** C8 as stated fails. The roof is Opening, an ABORT arrives, and two more
    ABORTs arrive while roofState is already Stopped; the tick that follows
    detects a change of state (previousRoofState is still Opening) and
    writes both relay pins. *)
Lemma repeated_abort_counterexample :
  let m := fst (execution (mkPorts LOW LOW LOW) 0 parked
                  [Command "OPEN" parked; Tick 1000 parked; Command "ABORT" parked]) in
  let m' := fst (run [Command "ABORT" parked; Command "ABORT" parked] m) in
  let r := step (Tick 9000 parked) m' in
  roofState (globals m) = roofStopped
  /\ roofState (globals m') = roofStopped
  /\ previousRoofState (globals m') = roofOpening
  /\ roofState (globals m') <> previousRoofState (globals m')
  /\ relay_events (snd r) =
     [EvWrite pinRelayOpen HIGH 9000; EvWrite pinRelayClose HIGH 9000]
  /\ relay_events (snd r) <> [].
Proof.
  cbn zeta.
  split; [vm_compute; reflexivity|]. split; [vm_compute; reflexivity|].
  split; [vm_compute; reflexivity|]. split; [vm_compute; discriminate|].
  split; [vm_compute; reflexivity|]. vm_compute. discriminate.
Qed.

(** C9. A command string other than OPEN, CLOSE, ABORT and QUERY (compared
    exactly, case included) leaves the whole machine as it was (roofState,
    the other globals, the output pins) and sends no reply. *)
Theorem unrecognized_command_ignored myString sens m :
  myString <> "OPEN" -> myString <> "CLOSE" ->
  myString <> "ABORT" -> myString <> "QUERY" ->
  step (Command myString sens) m = (m, [])
  /\ replies (snd (step (Command myString sens) m)) = [].
Proof.
  intros HO HC HA HQ. cbn [step].
  rewrite other_run by assumption. split; reflexivity.
Qed.

Lemma unrecognized_command_ignored_witness :
  "open" <> "OPEN" /\ "open" <> "CLOSE" /\ "open" <> "ABORT" /\ "open" <> "QUERY"
  /\ step (Command "open" parked) idle_machine = (idle_machine, [])
  /\ replies (snd (step (Command "open" parked) idle_machine)) = [].
Proof.
  split; [discriminate|]. split; [discriminate|].
  split; [discriminate|]. split; [discriminate|].
  apply (unrecognized_command_ignored "open" parked idle_machine); discriminate.
Defined.

(** C10. After boot roofState is Stopped, Opening or Closing, whatever the
    commands and ticks: the values roofClosed and roofOpen are never
    reached. *)
Theorem closed_and_open_unreachable power_up now sens ins :
  let st := roofState (globals (fst (execution power_up now sens ins))) in
  (st = roofStopped \/ st = roofOpening \/ st = roofClosing)
  /\ st <> roofClosed /\ st <> roofOpen.
Proof.
  cbn zeta.
  destruct (execution_summary power_up now sens ins) as (_ & _ & H).
  cbn zeta in H. unfold moving_or_stopped in H.
  split; [exact H|].
  destruct H as [-> | [-> | ->]]; split; discriminate.
Qed.

(** * The scenarios of the specification, run on the model *)

(** Stopped, telescope parked, OPEN received: the state becomes Opening;
    the next tick pulses a relay and sets hoistOnTime. *)
Example scenario_open :
  execution (mkPorts LOW LOW LOW) 0 parked
    [Command "OPEN" parked; Tick 1000 parked] =
  (mkMachine (mkGlobals roofOpening roofOpening 2800 0 false)
             (mkPorts HIGH HIGH LOW) 2800,
   [EvWrite pinRelayOpen HIGH 0; EvWrite pinRelayClose HIGH 0;
    EvWrite ledPin LOW 1000;
    EvWrite pinRelayOpen HIGH 1000; EvWrite pinRelayClose HIGH 1000;
    EvWrite pinRelayClose LOW 2000; EvWrite pinRelayClose HIGH 2800]).
Proof. vm_compute. reflexivity. Qed.

(** CLOSE received with the RA sensor not parked: NOTELESCOPEPARK is sent
    and the state is Closing. *)
Example scenario_close_unparked :
  step (Command "CLOSE" ra_unparked) idle_machine =
  (mkMachine (mkGlobals roofClosing roofStopped 0 0 false)
             (mkPorts HIGH HIGH LOW) 1000,
   [EvSend "NOTELESCOPEPARK"]).
Proof. reflexivity. Qed.

(** Open-limit asserted, close-limit not, telescope parked: OPEN. *)
Example scenario_query_open :
  replies (snd (step (Command "QUERY" limit_open_reached) idle_machine)) = ["OPEN"].
Proof. reflexivity. Qed.

(** A stop requested while Closing: the tick writes both relay pins HIGH. *)
Example scenario_abort_while_closing :
  snd (run [Command "CLOSE" parked; Tick 5000 parked;
            Command "ABORT" parked; Tick 9000 parked] idle_machine) =
  [EvWrite ledPin LOW 5000;
   EvWrite pinRelayOpen HIGH 5000; EvWrite pinRelayClose HIGH 5000;
   EvWrite pinRelayOpen LOW 6000; EvWrite pinRelayOpen HIGH 6800;
   EvWrite ledPin LOW 9000;
   EvWrite pinRelayOpen HIGH 9000; EvWrite pinRelayClose HIGH 9000].
Proof. vm_compute. reflexivity. Qed.

(** * Further properties of the sketch *)

(** ** Machine integers *)

Lemma to_ulong_range z : 0 <= Word.to_ulong z < Word.modulus.
Proof. unfold Word.to_ulong, Word.modulus. apply Z.mod_pos_bound. lia. Qed.

Lemma to_ulong_small z : 0 <= z < Word.modulus -> Word.to_ulong z = z.
Proof. unfold Word.to_ulong. apply Z.mod_small. Qed.

(** Subtracting a stored [long] time stamp in [unsigned long] gives the
    difference of the clocks modulo 2^32. *)
Lemma usub_stamp a b :
  Word.usub (Word.to_ulong a) (Word.to_long (Word.to_ulong b)) = Word.to_ulong (a - b).
Proof.
  unfold Word.usub, Word.to_long, Word.to_ulong, Word.modulus.
  rewrite Zmod_mod.
  destruct (_ <? Word.half).
  - symmetry. apply Zminus_mod.
  - replace (a mod 2 ^ 32 - (b mod 2 ^ 32 - 2 ^ 32))
      with (a mod 2 ^ 32 - b mod 2 ^ 32 + 1 * 2 ^ 32) by lia.
    rewrite Z_mod_plus_full. symmetry. apply Zminus_mod.
Qed.

Lemma to_long_small z : 0 <= z < Word.half -> Word.to_long z = z.
Proof.
  intros H. unfold Word.to_long, Word.half in *.
  rewrite to_ulong_small by (unfold Word.modulus; lia).
  destruct (Z.ltb_spec z (2 ^ 31)); lia.
Qed.

Lemma to_long_large z :
  Word.half <= z < Word.modulus -> Word.to_long z = z - Word.modulus.
Proof.
  intros H. unfold Word.to_long, Word.half in *.
  rewrite to_ulong_small by (unfold Word.modulus in *; lia).
  destruct (Z.ltb_spec z (2 ^ 31)); lia.
Qed.

(** ** The callback, completely *)

Lemma commanded_other myString :
  myString <> "OPEN" -> myString <> "CLOSE" -> myString <> "ABORT" ->
  commanded myString = None.
Proof.
  intros HO HC HA. apply String.eqb_neq in HO, HC, HA.
  unfold commanded. rewrite HO, HC, HA. reflexivity.
Qed.

Lemma callback_shape myString sens m :
  fst (exec (stringCallback myString) sens m) =
  match commanded myString with
  | Some st => mkMachine (with_roofState st (globals m)) (ports m) (clock m)
  | None => m
  end.
Proof.
  destruct (callback_cases myString) as [-> | [-> | [-> | [-> | (HO & HC & HA & HQ)]]]].
  - rewrite open_run. reflexivity.
  - rewrite close_run. reflexivity.
  - rewrite abort_run. reflexivity.
  - rewrite query_run. reflexivity.
  - rewrite other_run, commanded_other by assumption. reflexivity.
Qed.

Lemma callback_events myString sens m :
  sends_only (snd (exec (stringCallback myString) sens m))
  /\ (List.length (snd (exec (stringCallback myString) sens m)) <= 1)%nat.
Proof.
  unfold sends_only.
  destruct (callback_cases myString) as [-> | [-> | [-> | [-> | (HO & HC & HA & HQ)]]]].
  - rewrite open_run. destruct (interlock sens); cbn; split;
      repeat constructor; eauto.
  - rewrite close_run. destruct (interlock sens); cbn; split;
      repeat constructor; eauto.
  - rewrite abort_run. cbn. split; repeat constructor.
  - rewrite query_run. cbn. split; repeat constructor; eauto.
  - rewrite other_run by assumption. cbn. split; repeat constructor.
Qed.

Lemma sends_only_replies ev : sends_only ev -> List.length (replies ev) = List.length ev.
Proof.
  induction 1 as [|e ev (s & ->) _ IH]; [reflexivity|].
  cbn. rewrite IH. reflexivity.
Qed.

(** ** The tick, completely *)

Lemma with_roofState_resolved g g1 now sens :
  same_roof g g1 ->
  (if cutout_fires g now sens then with_roofState roofStopped g1 else g1)
  = with_roofState (resolved g now sens) g1.
Proof.
  intros (Hs & _). unfold resolved.
  destruct (cutout_fires g now sens); [reflexivity|].
  rewrite <- Hs. symmetry. apply with_roofState_same.
Qed.

Lemma tick_shape now sens m :
  let g := globals m in
  let st := resolved g now sens in
  exists g1 ev1,
    same_roof g g1 /\ led_only ev1 /\
    let g2 := with_previousRoofState st (with_roofState st g1) in
    let ps := replay (ports m) ev1 in
    step (Tick now sens) m =
    if RoofState_eqb st (previousRoofState g)
    then (mkMachine (with_roofState st g1) ps now, ev1)
    else match st with
         | roofOpening =>
             (mkMachine (with_hoistOnTime (Word.to_long (Word.to_ulong (now + 1800))) g2)
                        (mkPorts HIGH HIGH (led ps)) (now + 1800),
              ev1 ++ [EvWrite pinRelayOpen HIGH now; EvWrite pinRelayClose HIGH now;
                      EvWrite pinRelayClose LOW (now + 1000);
                      EvWrite pinRelayClose HIGH (now + 1800)])
         | roofClosing =>
             (mkMachine (with_hoistOnTime (Word.to_long (Word.to_ulong (now + 1800))) g2)
                        (mkPorts HIGH HIGH (led ps)) (now + 1800),
              ev1 ++ [EvWrite pinRelayOpen HIGH now; EvWrite pinRelayClose HIGH now;
                      EvWrite pinRelayOpen LOW (now + 1000);
                      EvWrite pinRelayOpen HIGH (now + 1800)])
         | _ =>
             (mkMachine g2 (mkPorts HIGH HIGH (led ps)) (now + 1000),
              ev1 ++ [EvWrite pinRelayOpen HIGH now; EvWrite pinRelayClose HIGH now])
         end.
Proof.
  cbn zeta.
  destruct (handleState_run sens (at_time now m)) as (g1 & ev1 & Hg & Hev & E).
  exists g1, ev1. split; [exact Hg|]. split; [exact Hev|].
  cbn zeta in E. cbn [at_time globals clock ports] in *.
  cbn [step]. unfold exec. rewrite E. clear E. cbn [fst snd].
  assert (Em : (if cutout_fires (globals m) now sens
                then mkMachine (with_roofState roofStopped g1)
                               (replay (ports m) ev1) now
                else mkMachine g1 (replay (ports m) ev1) now)
               = mkMachine (with_roofState (resolved (globals m) now sens) g1)
                           (replay (ports m) ev1) now).
  { rewrite <- (with_roofState_resolved _ _ now sens Hg).
    destruct (cutout_fires _ _ _); reflexivity. }
  rewrite Em. clear Em. rewrite act_on_change_run.
  cbn [globals with_roofState roofState previousRoofState].
  destruct Hg as (_ & Hp & _). rewrite Hp.
  destruct (RoofState_eqb _ _); [cbn; rewrite app_nil_r; reflexivity|].
  destruct (resolved (globals m) now sens);
    rewrite ?motorOff_run, ?motorFwd_run, ?motorReverse_run; reflexivity.
Qed.

Lemma cutout_resolved sens now m :
  roofState (globals (fst (exec safetyCutout sens (at_time now m))))
  = resolved (globals m) now sens.
Proof.
  unfold exec, resolved. rewrite safetyCutout_run. cbn [at_time globals clock].
  destruct (cutout_fires _ _ _); reflexivity.
Qed.

Lemma tick_relay_events ev1 tail :
  led_only ev1 -> relay_events tail = tail ->
  relay_events (ev1 ++ tail) = tail.
Proof.
  intros Hev Ht. rewrite relay_events_app.
  rewrite (quiet_relay_events _ (led_only_quiet _ Hev)). exact Ht.
Qed.

Lemma RoofState_eqb_eq a b : RoofState_eqb a b = true <-> a = b.
Proof. destruct a, b; cbn; split; intros H; try discriminate H; reflexivity. Qed.

Lemma RoofState_eqb_neq a b : RoofState_eqb a b = false <-> a <> b.
Proof.
  destruct a, b; cbn; split; intros H; try discriminate H; try reflexivity;
    try (intros E; discriminate E); exfalso; apply H; reflexivity.
Qed.

(** X1. A tick that detects a change into Opening pulses pinRelayClose, one
    that detects a change into Closing pulses pinRelayOpen: both outputs are
    written HIGH, 1000 ms later the one output is written LOW, 800 ms later
    HIGH again; the tick returns 1800 ms after it started, with both relays
    released, the state applied and hoistOnTime set to the clock then. *)
Theorem motion_pulse now sens m st p :
  (st = roofOpening /\ p = pinRelayClose) \/ (st = roofClosing /\ p = pinRelayOpen) ->
  roofState (globals (fst (exec safetyCutout sens (at_time now m)))) = st ->
  previousRoofState (globals m) <> st ->
  let r := step (Tick now sens) m in
  relay_events (snd r) =
    [EvWrite pinRelayOpen HIGH now; EvWrite pinRelayClose HIGH now;
     EvWrite p LOW (now + 1000); EvWrite p HIGH (now + 1800)]
  /\ clock (fst r) = now + 1800
  /\ relays (ports (fst r)) = (HIGH, HIGH)
  /\ hoistOnTime (globals (fst r)) = Word.to_long (Word.to_ulong (now + 1800))
  /\ roofState (globals (fst r)) = st
  /\ previousRoofState (globals (fst r)) = st.
Proof.
  intros Hdir Hst Hpv. cbn zeta. rewrite cutout_resolved in Hst.
  destruct (tick_shape now sens m) as (g1 & ev1 & Hg & Hev & E).
  cbn zeta in E. rewrite E, Hst. clear E.
  apply RoofState_eqb_neq in Hpv.
  assert (Hpv' : RoofState_eqb st (previousRoofState (globals m)) = false).
  { destruct st, (previousRoofState (globals m)); cbn in *; congruence. }
  rewrite Hpv'.
  destruct Hdir as [(-> & ->) | (-> & ->)]; cbn [fst snd];
    (rewrite tick_relay_events; [|exact Hev|reflexivity]);
    repeat split.
Qed.

Lemma motion_pulse_witness :
  let r := step (Tick 6000 parked) closing_requested in
  roofState (globals (fst (exec safetyCutout parked (at_time 6000 closing_requested))))
  = roofClosing
  /\ previousRoofState (globals closing_requested) <> roofClosing
  /\ relay_events (snd r) =
       [EvWrite pinRelayOpen HIGH 6000; EvWrite pinRelayClose HIGH 6000;
        EvWrite pinRelayOpen LOW (6000 + 1000); EvWrite pinRelayOpen HIGH (6000 + 1800)]
  /\ clock (fst r) = 6000 + 1800.
Proof.
  cbn zeta. split; [reflexivity|]. split; [discriminate|].
  destruct (motion_pulse 6000 parked closing_requested roofClosing pinRelayOpen)
    as (H1 & H2 & _).
  - right. split; reflexivity.
  - reflexivity.
  - discriminate.
  - split; assumption.
Defined.

(** X2. A tick that detects a change into a state that is neither Opening
    nor Closing (a stop) writes both relay outputs HIGH and nothing else to
    the relays, returns 1000 ms later and leaves hoistOnTime as it was. *)
Theorem stop_releases now sens m :
  let st := roofState (globals (fst (exec safetyCutout sens (at_time now m)))) in
  let r := step (Tick now sens) m in
  st <> roofOpening -> st <> roofClosing ->
  previousRoofState (globals m) <> st ->
  relay_events (snd r) =
    [EvWrite pinRelayOpen HIGH now; EvWrite pinRelayClose HIGH now]
  /\ clock (fst r) = now + 1000
  /\ relays (ports (fst r)) = (HIGH, HIGH)
  /\ hoistOnTime (globals (fst r)) = hoistOnTime (globals m)
  /\ roofState (globals (fst r)) = st
  /\ previousRoofState (globals (fst r)) = st.
Proof.
  cbn zeta. rewrite cutout_resolved. intros HnO HnC Hpv.
  destruct (tick_shape now sens m) as (g1 & ev1 & Hg & Hev & E).
  cbn zeta in E. rewrite E. clear E.
  assert (Hpv' : RoofState_eqb (resolved (globals m) now sens)
                               (previousRoofState (globals m)) = false).
  { apply RoofState_eqb_neq. congruence. }
  rewrite Hpv'. destruct Hg as (_ & _ & Hh).
  destruct (resolved (globals m) now sens); try congruence; cbn [fst snd];
    (rewrite tick_relay_events; [|exact Hev|reflexivity]);
    repeat split; exact Hh.
Qed.

Lemma stop_releases_witness :
  let st := roofState (globals (fst (exec safetyCutout parked
                                       (at_time 6000 abort_requested)))) in
  let r := step (Tick 6000 parked) abort_requested in
  st <> roofOpening /\ st <> roofClosing
  /\ previousRoofState (globals abort_requested) <> st
  /\ relay_events (snd r) =
       [EvWrite pinRelayOpen HIGH 6000; EvWrite pinRelayClose HIGH 6000]
  /\ clock (fst r) = 6000 + 1000.
Proof.
  cbn zeta. split; [discriminate|]. split; [discriminate|]. split; [discriminate|].
  destruct (stop_releases 6000 parked abort_requested) as (H1 & H2 & _);
    try discriminate.
  split; assumption.
Defined.

Lemma tick_without_change now sens m :
  let r := step (Tick now sens) m in
  roofState (globals (fst (exec safetyCutout sens (at_time now m))))
  = previousRoofState (globals m) ->
  relay_events (snd r) = []
  /\ relays (ports (fst r)) = relays (ports m)
  /\ clock (fst r) = now
  /\ hoistOnTime (globals (fst r)) = hoistOnTime (globals m)
  /\ roofState (globals (fst r)) = previousRoofState (globals m)
  /\ previousRoofState (globals (fst r)) = previousRoofState (globals m).
Proof.
  cbn zeta. rewrite cutout_resolved. intros Hst.
  destruct (tick_shape now sens m) as (g1 & ev1 & Hg & Hev & E).
  cbn zeta in E. rewrite E, Hst. clear E.
  assert (Hpv : RoofState_eqb (previousRoofState (globals m))
                              (previousRoofState (globals m)) = true)
    by (apply RoofState_eqb_eq; reflexivity).
  rewrite Hpv. cbn [fst snd globals ports clock].
  destruct Hg as (_ & Hp & Hh). apply led_only_quiet in Hev.
  rewrite (quiet_relay_events _ Hev), (quiet_replay _ Hev).
  repeat split; assumption.
Qed.

(** X3. A tick in which the state left by safetyCutout equals
    previousRoofState writes to no relay pin, leaves the relay outputs and
    hoistOnTime as they were and does not block: the clock is still the one
    at which the tick started. *)
Theorem unchanged_state_is_silent now sens m :
  let r := step (Tick now sens) m in
  roofState (globals (fst (exec safetyCutout sens (at_time now m))))
  = previousRoofState (globals m) ->
  relay_events (snd r) = []
  /\ replies (snd r) = []
  /\ relays (ports (fst r)) = relays (ports m)
  /\ clock (fst r) = now
  /\ hoistOnTime (globals (fst r)) = hoistOnTime (globals m)
  /\ roofState (globals (fst r)) = previousRoofState (globals m)
  /\ previousRoofState (globals (fst r)) = previousRoofState (globals m).
Proof.
  cbn zeta. intros Hst.
  destruct (tick_without_change now sens m Hst) as (H1 & H2).
  split; [exact H1|]. split; [|exact H2].
  destruct (handleState_run sens (at_time now m)) as (g1 & ev1 & _ & Hev & E).
  cbn zeta in E. cbn [step]. unfold exec. rewrite E. cbn [snd]. clear E.
  rewrite act_on_change_run.
  assert (Hs : forall ev, led_only ev -> replies ev = []).
  { induction 1 as [|e ev (v & t & ->) _ IH]; [reflexivity|exact IH]. }
  assert (Ha : forall e1 e2, replies (e1 ++ e2) = replies e1 ++ replies e2).
  { induction e1 as [|e e1 IH]; intros e2; [reflexivity|].
    destruct e; cbn; rewrite IH; reflexivity. }
  rewrite Ha, (Hs _ Hev).
  destruct (RoofState_eqb _ _); [reflexivity|].
  match goal with |- context [roofState (globals ?x)] =>
    destruct (roofState (globals x)) end;
    rewrite ?motorOff_run, ?motorFwd_run, ?motorReverse_run; reflexivity.
Qed.

Lemma unchanged_state_is_silent_witness :
  let r := step (Tick 9000 parked) opening_machine in
  roofState (globals (fst (exec safetyCutout parked (at_time 9000 opening_machine))))
  = previousRoofState (globals opening_machine)
  /\ relay_events (snd r) = []
  /\ clock (fst r) = 9000.
Proof.
  cbn zeta. split; [reflexivity|].
  destruct (unchanged_state_is_silent 9000 parked opening_machine) as (H1 & _ & _ & H2 & _).
  - reflexivity.
  - split; assumption.
Defined.

(** X4. A tick blocks the loop for 0, 1000 or 1800 ms and for nothing
    else, whatever the state, the sensors and the clock. *)
Theorem tick_blocks_bounded now sens m :
  let c := clock (fst (step (Tick now sens) m)) in
  c = now \/ c = now + 1000 \/ c = now + 1800.
Proof.
  cbn zeta.
  destruct (tick_shape now sens m) as (g1 & ev1 & _ & _ & E).
  cbn zeta in E. rewrite E. clear E.
  destruct (RoofState_eqb _ _); [left; reflexivity|].
  destruct (resolved (globals m) now sens); cbn; tauto.
Qed.

(** X5. After every tick previousRoofState equals roofState: a change of
    state is acted upon by exactly one tick. *)
Theorem tick_applies_state now sens m :
  let r := step (Tick now sens) m in
  previousRoofState (globals (fst r)) = roofState (globals (fst r))
  /\ roofState (globals (fst r))
     = roofState (globals (fst (exec safetyCutout sens (at_time now m)))).
Proof.
  cbn zeta. rewrite cutout_resolved.
  destruct (tick_shape now sens m) as (g1 & ev1 & Hg & _ & E).
  cbn zeta in E. rewrite E. clear E.
  destruct (RoofState_eqb _ _) eqn:Eq.
  - apply RoofState_eqb_eq in Eq. cbn. destruct Hg as (_ & Hp & _).
    split; [congruence|reflexivity].
  - destruct (resolved (globals m) now sens); cbn; split; reflexivity.
Qed.

(** X6. A tick changes roofState only by stopping the roof, and only when
    the roof was Opening (respectively Closing), roofMotorRunDuration is
    over 20000 and the open-limit (respectively close-limit) switch reads
    HIGH. *)
Theorem tick_only_stops now sens m :
  let r := step (Tick now sens) m in
  roofState (globals (fst r)) <> roofState (globals m) ->
  roofState (globals (fst r)) = roofStopped
  /\ 20000 < result roofMotorRunDuration sens (at_time now m)
  /\ ((roofState (globals m) = roofOpening /\ limitOpen sens = HIGH)
      \/ (roofState (globals m) = roofClosing /\ limitClose sens = HIGH)).
Proof.
  cbn zeta. intros Hch.
  destruct (tick_summary sens (at_time now m)) as (Hrs & _).
  cbn zeta in Hrs. cbn [step] in *. cbn [at_time globals clock] in Hrs.
  rewrite Hrs in *. unfold result. rewrite roofMotorRunDuration_run.
  cbn [fst at_time globals clock].
  destruct (cutout_fires (globals m) now sens) eqn:Hf; [|congruence].
  split; [reflexivity|].
  unfold cutout_fires in Hf. apply andb_prop in Hf. destruct Hf as (Hd & Hl).
  apply Z.ltb_lt in Hd. split; [exact Hd|].
  apply orb_prop in Hl. destruct Hl as [Hl|Hl]; apply andb_prop in Hl;
    destruct Hl as (Hs & Hv); apply RoofState_eqb_eq in Hs;
    [left|right]; (split; [exact Hs|]).
  - destruct (limitOpen sens); [discriminate Hv|reflexivity].
  - destruct (limitClose sens); [discriminate Hv|reflexivity].
Qed.

Lemma tick_only_stops_witness :
  let r := step (Tick 30000 limit_open_reached) opening_machine in
  roofState (globals (fst r)) <> roofState (globals opening_machine)
  /\ roofState (globals (fst r)) = roofStopped
  /\ 20000 < result roofMotorRunDuration limit_open_reached (at_time 30000 opening_machine).
Proof.
  cbn zeta. split; [vm_compute; discriminate|].
  destruct (tick_only_stops 30000 limit_open_reached opening_machine) as (H1 & H2 & _).
  - vm_compute. discriminate.
  - split; assumption.
Defined.

(** ** The run duration across the wrap of millis() *)

Lemma run_duration_moving g now :
  roofState g = roofOpening \/ roofState g = roofClosing ->
  run_duration g now = Word.to_long (Word.usub (Word.to_ulong now) (hoistOnTime g)).
Proof.
  intros [H|H]; unfold run_duration; rewrite H; reflexivity.
Qed.

(** X7. While the roof is Opening or Closing, with hoistOnTime the stamp
    taken when the clock showed [t0], roofMotorRunDuration returns the
    milliseconds gone by since then, also when millis() has wrapped in
    between, as long as fewer than 2^31 ms have gone by. *)
Theorem run_duration_exact now t0 sens m :
  roofState (globals m) = roofOpening \/ roofState (globals m) = roofClosing ->
  hoistOnTime (globals m) = Word.to_long (Word.to_ulong t0) ->
  0 <= now - t0 < 2 ^ 31 ->
  result roofMotorRunDuration sens (at_time now m) = now - t0.
Proof.
  intros Hmv Hh Hr. unfold result. rewrite roofMotorRunDuration_run.
  cbn [fst at_time globals clock].
  rewrite (run_duration_moving _ _ Hmv), Hh, usub_stamp.
  rewrite to_ulong_small by (unfold Word.modulus; lia).
  apply to_long_small. unfold Word.half. lia.
Qed.

Lemma run_duration_exact_witness :
  (roofState (globals wrapping_machine) = roofOpening
   \/ roofState (globals wrapping_machine) = roofClosing)
  /\ hoistOnTime (globals wrapping_machine) = Word.to_long (Word.to_ulong (2 ^ 32 - 100))
  /\ 0 <= (2 ^ 32 + 21000) - (2 ^ 32 - 100) < 2 ^ 31
  /\ result roofMotorRunDuration parked (at_time (2 ^ 32 + 21000) wrapping_machine)
     = (2 ^ 32 + 21000) - (2 ^ 32 - 100).
Proof.
  split; [left; reflexivity|]. split; [reflexivity|]. split; [lia|].
  apply (run_duration_exact (2 ^ 32 + 21000) (2 ^ 32 - 100) parked wrapping_machine).
  - left. reflexivity.
  - reflexivity.
  - lia.
Defined.

(** X8. Once 2^31 ms or more (and fewer than 2^32) have gone by since
    hoistOnTime was stamped, roofMotorRunDuration is negative, and a tick
    leaves roofState as it is even with the limit switches asserted: the
    cutout does not see a motion that old. *)
Theorem cutout_blind_after_half_range now t0 sens m :
  roofState (globals m) = roofOpening \/ roofState (globals m) = roofClosing ->
  hoistOnTime (globals m) = Word.to_long (Word.to_ulong t0) ->
  2 ^ 31 <= now - t0 < 2 ^ 32 ->
  result roofMotorRunDuration sens (at_time now m) = now - t0 - 2 ^ 32
  /\ roofState (globals (fst (step (Tick now sens) m))) = roofState (globals m).
Proof.
  intros Hmv Hh Hr.
  assert (Hd : run_duration (globals m) now = now - t0 - 2 ^ 32).
  { rewrite (run_duration_moving _ _ Hmv), Hh, usub_stamp.
    rewrite to_ulong_small by (unfold Word.modulus; lia).
    apply to_long_large. unfold Word.half, Word.modulus. lia. }
  split.
  - unfold result. rewrite roofMotorRunDuration_run. exact Hd.
  - destruct (tick_summary sens (at_time now m)) as (Hrs & _).
    cbn zeta in Hrs. cbn [step]. cbn [at_time globals clock] in Hrs.
    rewrite Hrs. unfold cutout_fires. rewrite Hd.
    destruct (Z.ltb_spec 20000 (now - t0 - 2 ^ 32)); [lia|reflexivity].
Qed.

Lemma cutout_blind_after_half_range_witness :
  (roofState (globals opening_machine) = roofOpening
   \/ roofState (globals opening_machine) = roofClosing)
  /\ hoistOnTime (globals opening_machine) = Word.to_long (Word.to_ulong 2800)
  /\ 2 ^ 31 <= (2 ^ 31 + 2800) - 2800 < 2 ^ 32
  /\ result roofMotorRunDuration limit_open_reached
            (at_time (2 ^ 31 + 2800) opening_machine)
     = (2 ^ 31 + 2800) - 2800 - 2 ^ 32
  /\ roofState (globals (fst (step (Tick (2 ^ 31 + 2800) limit_open_reached)
                                   opening_machine)))
     = roofState (globals opening_machine).
Proof.
  split; [left; reflexivity|]. split; [reflexivity|]. split; [lia|].
  apply (cutout_blind_after_half_range (2 ^ 31 + 2800) 2800 limit_open_reached
           opening_machine).
  - left. reflexivity.
  - reflexivity.
  - lia.
Defined.

(** ** The busy-wait *)

Lemma usub_in_range a b : 0 <= Word.usub a b < 2 ^ 32.
Proof. unfold Word.usub. apply to_ulong_range. Qed.

(** X9. The busy-wait of a pulse returns at the first millisecond at which
    [millis() - activateTime], taken in unsigned long, is no longer below
    800: not before, and at once when that already holds on entry. Entered
    with activateTime just read it returns exactly 800 ms later, whatever
    the clock, so also when millis() wraps during the pulse. *)
Theorem busy_wait_exit activateTime now :
  let r := spin activateTime now in
  now <= r
  /\ 800 <= Word.usub (Word.to_ulong r) activateTime
  /\ (forall t, now <= t < r -> Word.usub (Word.to_ulong t) activateTime < 800)
  /\ (800 <= Word.usub (Word.to_ulong now) activateTime -> r = now)
  /\ spin (Word.to_ulong now) now = now + 800.
Proof.
  cbn zeta. split; [rewrite spin_exit; lia|].
  split; [|split; [|split]].
  - functional induction (spin activateTime now) as [now Hlt _ IH|now Hge _];
      [exact IH|lia].
  - functional induction (spin activateTime now) as [now Hlt _ IH|now Hge _].
    + intros t Ht. destruct (Z.eq_dec t now) as [->|Hne]; [exact Hlt|].
      apply IH. lia.
    + intros t Ht. lia.
  - intros H. rewrite spin_exit. unfold pulse_left. lia.
  - apply spin_pulse.
Qed.

Lemma busy_wait_exit_witness :
  let r := spin 4294967000 4294967000 in
  r = 4294967800
  /\ Word.usub (Word.to_ulong 4294967500) 4294967000 < 800
  /\ (800 <= Word.usub (Word.to_ulong 5000) 1000 -> spin 1000 5000 = 5000).
Proof.
  cbn zeta.
  destruct (busy_wait_exit 4294967000 4294967000) as (_ & _ & H & _ & H800).
  destruct (busy_wait_exit 1000 5000) as (_ & _ & _ & Hnow & _).
  change (Word.to_ulong 4294967000) with 4294967000 in H800.
  split; [exact H800|]. split; [|exact Hnow].
  apply H. rewrite H800. lia.
Defined.

(** ** Commands and the loop *)

Lemma run_app l1 : forall l2 m,
  run (l1 ++ l2) m =
  (fst (run l2 (fst (run l1 m))), snd (run l1 m) ++ snd (run l2 (fst (run l1 m)))).
Proof.
  induction l1 as [|i l1 IH]; intros l2 m.
  - cbn. destruct (run l2 m); reflexivity.
  - cbn [app run]. destruct (step i m) as [m1 e1]. rewrite IH.
    destruct (run l1 m1) as [m2 e2]. cbn [fst snd].
    destruct (run l2 m2) as [m3 e3]. cbn [fst snd]. rewrite app_assoc. reflexivity.
Qed.

Lemma run_one i m : run [i] m = step i m.
Proof. cbn. destruct (step i m) as [m1 e1]. rewrite app_nil_r. reflexivity. Qed.

Lemma command_keeps myString sens m :
  exists st,
    fst (step (Command myString sens) m)
    = mkMachine (with_roofState st (globals m)) (ports m) (clock m)
    /\ (commanded myString = Some st
        \/ (commanded myString = None /\ st = roofState (globals m))).
Proof.
  cbn [step]. rewrite callback_shape. destruct (commanded myString) as [st|].
  - exists st. split; [reflexivity|left; reflexivity].
  - exists (roofState (globals m)). rewrite with_roofState_same, machine_eta.
    split; [reflexivity|right; split; reflexivity].
Qed.

Lemma received_keeps pending : forall m,
  (exists st, fst (run (received pending) m)
              = mkMachine (with_roofState st (globals m)) (ports m) (clock m))
  /\ sends_only (snd (run (received pending) m)).
Proof.
  induction pending as [|[myString sens] pending IH]; intros m.
  - cbn. split; [|constructor]. exists (roofState (globals m)).
    rewrite with_roofState_same, machine_eta. reflexivity.
  - change (received ((myString, sens) :: pending))
      with ([Command myString sens] ++ received pending).
    rewrite run_app, run_one. cbn [fst snd].
    destruct (command_keeps myString sens m) as (st1 & E1 & _).
    destruct (callback_events myString sens m) as (Hs1 & _).
    cbn [step] in *. rewrite E1.
    destruct (IH (mkMachine (with_roofState st1 (globals m)) (ports m) (clock m)))
      as ((st2 & E2) & Hs2).
    split.
    + exists st2. rewrite E2. reflexivity.
    + apply Forall_app. split; assumption.
Qed.

(** X10. The callback never touches a pin: whatever string arrives, the
    output pins, the clock, previousRoofState, hoistOnTime and the LED
    bookkeeping are as before; it writes to no pin and sends at most one
    string. Only roofState can change. *)
Theorem commands_never_touch_pins myString sens m :
  let r := step (Command myString sens) m in
  ports (fst r) = ports m
  /\ clock (fst r) = clock m
  /\ previousRoofState (globals (fst r)) = previousRoofState (globals m)
  /\ hoistOnTime (globals (fst r)) = hoistOnTime (globals m)
  /\ ledToggleTime (globals (fst r)) = ledToggleTime (globals m)
  /\ ledState (globals (fst r)) = ledState (globals m)
  /\ Forall (fun e => exists s, e = EvSend s) (snd r)
  /\ (List.length (snd r) <= 1)%nat.
Proof.
  cbn zeta. destruct (command_keeps myString sens m) as (st & E & _).
  destruct (callback_events myString sens m) as (Hs & Hl).
  rewrite E. cbn [step] in *. repeat split; assumption.
Qed.

(** X11. Of the strings received before a tick only the last OPEN, CLOSE or
    ABORT counts: after any pending strings followed by one of these three
    the machine is the one that this command alone would have left. *)
Theorem last_command_wins pending myString sens m st :
  commanded myString = Some st ->
  fst (run (received pending ++ [Command myString sens]) m)
  = fst (step (Command myString sens) m)
  /\ roofState (globals (fst (step (Command myString sens) m))) = st.
Proof.
  intros Hc. rewrite run_app, run_one. cbn [fst].
  destruct (received_keeps pending m) as ((st1 & E1) & _). rewrite E1.
  cbn [step]. rewrite !callback_shape, Hc. split; reflexivity.
Qed.

Lemma last_command_wins_witness :
  commanded "ABORT" = Some roofStopped
  /\ fst (run (received [("OPEN", parked); ("QUERY", parked); ("CLOSE", ra_unparked)]
               ++ [Command "ABORT" parked]) idle_machine)
     = fst (step (Command "ABORT" parked) idle_machine)
  /\ roofState (globals (fst (step (Command "ABORT" parked) idle_machine))) = roofStopped.
Proof.
  split; [reflexivity|].
  apply (last_command_wins [("OPEN", parked); ("QUERY", parked); ("CLOSE", ra_unparked)]
           "ABORT" parked idle_machine roofStopped).
  reflexivity.
Defined.

Lemma received_idle after :
  Forall (fun c => commanded (fst c) = None) after ->
  forall m, fst (run (received after) m) = m.
Proof.
  induction 1 as [|[myString sens] after Hc _ IH]; intros m; [reflexivity|].
  change (received ((myString, sens) :: after))
    with ([Command myString sens] ++ received after).
  rewrite run_app, run_one. cbn [fst snd step] in *.
  rewrite callback_shape, Hc. apply IH.
Qed.

Lemma loop_after_last before myString s after now sens m st :
  commanded myString = Some st ->
  Forall (fun c => commanded (fst c) = None) after ->
  let m1 := mkMachine (with_roofState st (globals m)) (ports m) (clock m) in
  fst (loop (before ++ (myString, s) :: after) now sens m)
  = fst (step (Tick now sens) m1)
  /\ relay_events (snd (loop (before ++ (myString, s) :: after) now sens m))
     = relay_events (snd (step (Tick now sens) m1)).
Proof.
  intros Hc Hafter. cbn zeta. unfold loop. rewrite run_app, run_one.
  unfold received. rewrite map_app. fold (received before). cbn [map fst snd].
  change (Command myString s :: map (fun c => Command (fst c) (snd c)) after)
    with ([Command myString s] ++ received after).
  rewrite !run_app, run_one. cbn [fst snd].
  destruct (received_keeps before m) as ((st1 & E1) & Hs1). rewrite E1.
  destruct (callback_events myString s
              (mkMachine (with_roofState st1 (globals m)) (ports m) (clock m)))
    as (Hs2 & _).
  cbn [step] in *. rewrite callback_shape, Hc. cbn [globals ports clock].
  destruct (received_keeps after
              (mkMachine (with_roofState st (globals m)) (ports m) (clock m)))
    as (_ & Hs3).
  rewrite (received_idle after Hafter).
  split; [reflexivity|].
  rewrite relay_events_app. rewrite (quiet_relay_events (_ ++ _)); [reflexivity|].
  apply Forall_app. split; [apply sends_only_quiet; assumption|].
  apply Forall_app. split; apply sends_only_quiet; assumption.
Qed.

(** X12. A pass of the loop whose last OPEN, CLOSE or ABORT (whatever
    strings come before it, and with only QUERY or unrecognized strings
    after it) asks for the state the roof is already settled in (roofState
    and previousRoofState both that state) writes to no relay pin and does
    not restart hoistOnTime, provided safetyCutout leaves that state: a
    repeated OPEN does not pulse again, and an OPEN taken back by ABORT
    before the tick never reaches the relays. *)
Theorem pass_to_settled_state_is_silent before myString s after now sens m st :
  settled_at st m ->
  commanded myString = Some st ->
  Forall (fun c => commanded (fst c) = None) after ->
  roofState (globals (fst (exec safetyCutout sens (at_time now m)))) = st ->
  let r := loop (before ++ (myString, s) :: after) now sens m in
  relay_events (snd r) = []
  /\ hoistOnTime (globals (fst r)) = hoistOnTime (globals m)
  /\ relays (ports (fst r)) = relays (ports m)
  /\ clock (fst r) = now
  /\ settled_at st (fst r).
Proof.
  intros (Hs & Hp) Hc Hafter Hcut. cbn zeta.
  destruct (loop_after_last before myString s after now sens m st Hc Hafter)
    as (Em & Ee).
  cbn zeta in Em, Ee.
  assert (E : mkMachine (with_roofState st (globals m)) (ports m) (clock m) = m).
  { rewrite <- Hs, with_roofState_same. apply machine_eta. }
  rewrite Em, Ee, E.
  destruct (tick_without_change now sens m) as (H1 & H2 & H3 & H4 & H5 & H6).
  { congruence. }
  unfold settled_at. repeat split; congruence.
Qed.

Lemma pass_to_settled_state_is_silent_witness :
  let r := loop ([("OPEN", parked)] ++ ("ABORT", parked) :: [("QUERY", parked)])
                5000 parked idle_machine in
  settled_at roofStopped idle_machine
  /\ commanded "ABORT" = Some roofStopped
  /\ Forall (fun c => commanded (fst c) = None) [("QUERY", parked)]
  /\ relay_events (snd r) = []
  /\ settled_at roofStopped (fst r).
Proof.
  cbn zeta. split; [split; reflexivity|]. split; [reflexivity|].
  assert (Ha : Forall (fun c : string * Sensors => commanded (fst c) = None)
                 [("QUERY", parked)]) by (repeat constructor).
  split; [exact Ha|].
  destruct (pass_to_settled_state_is_silent [("OPEN", parked)] "ABORT" parked
              [("QUERY", parked)] 5000 parked idle_machine roofStopped)
    as (H1 & _ & _ & _ & H2).
  - split; reflexivity.
  - reflexivity.
  - exact Ha.
  - reflexivity.
  - split; assumption.
Defined.

Lemma led_only_replies ev : led_only ev -> replies ev = [].
Proof.
  induction 1 as [|e ev (v & t & ->) _ IH]; [reflexivity|exact IH].
Qed.

Lemma replies_app e1 e2 : replies (e1 ++ e2) = replies e1 ++ replies e2.
Proof.
  induction e1 as [|e e1 IH]; [reflexivity|].
  destruct e; cbn; rewrite IH; reflexivity.
Qed.

Lemma tick_replies now sens m : replies (snd (step (Tick now sens) m)) = [].
Proof.
  destruct (tick_shape now sens m) as (g1 & ev1 & _ & Hev & E).
  cbn zeta in E. rewrite E. clear E.
  destruct (RoofState_eqb _ _); [exact (led_only_replies _ Hev)|].
  destruct (resolved (globals m) now sens); cbn [snd];
    rewrite replies_app, (led_only_replies _ Hev); reflexivity.
Qed.

(** X13. An OPEN (respectively CLOSE) received while the roof is settled
    at Stopped is dropped by the very next tick when hoistOnTime, still the
    stamp of an earlier motion, is more than 20000 ms old and the open-limit
    (respectively close-limit) switch reads HIGH: safetyCutout sets the
    state back to Stopped before the change is acted upon, no relay pin is
    written, and nothing is sent about it. *)
Theorem stale_command_dropped myString s now sens m :
  let m1 := fst (step (Command myString s) m) in
  let r := step (Tick now sens) m1 in
  settled_at roofStopped m ->
  (myString = "OPEN" /\ limitOpen sens = HIGH)
  \/ (myString = "CLOSE" /\ limitClose sens = HIGH) ->
  20000 < result roofMotorRunDuration sens (at_time now m1) ->
  relay_events (snd r) = []
  /\ replies (snd r) = []
  /\ settled_at roofStopped (fst r)
  /\ hoistOnTime (globals (fst r)) = hoistOnTime (globals m).
Proof.
  cbn zeta. intros (Hs & Hp) Hdir Hd.
  set (m1 := fst (step (Command myString s) m)) in *.
  unfold result in Hd. rewrite roofMotorRunDuration_run in Hd.
  cbn [fst at_time globals clock] in Hd.
  assert (Hm1 : exists st, m1 = mkMachine (with_roofState st (globals m)) (ports m) (clock m)
                /\ ((st = roofOpening /\ limitOpen sens = HIGH)
                    \/ (st = roofClosing /\ limitClose sens = HIGH))).
  { unfold m1. cbn [step]. rewrite callback_shape.
    destruct Hdir as [(-> & Hl)|(-> & Hl)]; eexists; (split; [reflexivity|]); tauto. }
  destruct Hm1 as (st & Em1 & Hst).
  assert (Hf : cutout_fires (globals m1) now sens = true).
  { apply cutout_fires_intro; [exact Hd|]. rewrite Em1. exact Hst. }
  destruct (tick_without_change now sens m1) as (H1 & _ & _ & H4 & H5 & H6).
  { rewrite cutout_resolved. unfold resolved. rewrite Hf, Em1. cbn. congruence. }
  assert (Hpv : previousRoofState (globals m1) = roofStopped)
    by (rewrite Em1; exact Hp).
  assert (Hh : hoistOnTime (globals m1) = hoistOnTime (globals m))
    by (rewrite Em1; reflexivity).
  split; [exact H1|]. split; [apply tick_replies|].
  unfold settled_at. repeat split; congruence.
Qed.

Lemma stale_command_dropped_witness :
  let m1 := fst (step (Command "OPEN" parked) idle_machine) in
  let r := step (Tick 60000 limit_open_reached) m1 in
  settled_at roofStopped idle_machine
  /\ limitOpen limit_open_reached = HIGH
  /\ 20000 < result roofMotorRunDuration limit_open_reached (at_time 60000 m1)
  /\ relay_events (snd r) = []
  /\ replies (snd r) = []
  /\ settled_at roofStopped (fst r).
Proof.
  cbn zeta. split; [split; reflexivity|]. split; [reflexivity|].
  split; [vm_compute; reflexivity|].
  destruct (stale_command_dropped "OPEN" parked 60000 limit_open_reached idle_machine)
    as (H1 & H2 & H3 & _).
  - split; reflexivity.
  - left. split; reflexivity.
  - vm_compute. reflexivity.
  - repeat split; try assumption; apply H3.
Defined.

(** X14. A tick never sends anything to the host: neither a pulse nor a
    stop forced by safetyCutout is reported. *)
Theorem ticks_never_reply now sens m :
  replies (snd (step (Tick now sens) m)) = []
  /\ Forall (fun e => exists p v t, e = EvWrite p v t) (snd (step (Tick now sens) m)).
Proof.
  split; [apply tick_replies|].
  pose proof (tick_replies now sens m) as H.
  induction (snd (step (Tick now sens) m)) as [|e ev IH]; [constructor|].
  destruct e as [p v t|s']; cbn in H; [|discriminate H].
  constructor; [eauto|exact (IH H)].
Qed.

(** ** Whole executions *)

Lemma pulse_train_app e1 e2 :
  pulse_train e1 -> pulse_train e2 -> pulse_train (e1 ++ e2).
Proof.
  induction 1 as [|t rest _ IH|p t rest Hp _ IH]; intros H2; cbn [app].
  - exact H2.
  - apply train_off. exact (IH H2).
  - apply train_pulse; [exact Hp|exact (IH H2)].
Qed.

Lemma step_pulse_train i m : pulse_train (relay_events (snd (step i m))).
Proof.
  destruct i as [myString sens|now sens].
  - destruct (callback_events myString sens m) as (Hs & _). cbn [step].
    rewrite (quiet_relay_events _ (sends_only_quiet _ Hs)). constructor.
  - destruct (tick_shape now sens m) as (g1 & ev1 & _ & Hev & E).
    cbn zeta in E. rewrite E. clear E.
    destruct (RoofState_eqb _ _).
    + cbn [snd]. rewrite (quiet_relay_events _ (led_only_quiet _ Hev)). constructor.
    + destruct (resolved (globals m) now sens); cbn [snd];
        (rewrite tick_relay_events; [|exact Hev|reflexivity]);
        first [ apply train_pulse; [reflexivity|apply train_end]
              | apply train_off; apply train_end ].
Qed.

Lemma run_pulse_train ins : forall m, pulse_train (relay_events (snd (run ins m))).
Proof.
  induction ins as [|i rest IH]; intros m; [constructor|].
  change (i :: rest) with ([i] ++ rest). rewrite run_app, run_one. cbn [snd].
  rewrite relay_events_app. apply pulse_train_app; [apply step_pulse_train|apply IH].
Qed.

(** X15. In every execution the writes to the relay pins come in blocks:
    both outputs written HIGH, and then either nothing more or, 1000 ms
    later, one output written LOW and written HIGH again 800 ms after
    that. No relay is energized without that settle delay before it, and
    none stays energized beyond its pulse. *)
Theorem relay_trace_is_pulse_train power_up now sens ins :
  pulse_train (relay_events (snd (execution power_up now sens ins))).
Proof.
  unfold execution.
  assert (Hb : pulse_train (relay_events (snd (boot power_up now sens))))
    by (cbn; apply train_off; apply train_end).
  destruct (boot power_up now sens) as [m0 e0]. cbn [snd] in Hb.
  pose proof (run_pulse_train ins m0) as Hr.
  destruct (run ins m0) as [m1 e1]. cbn [snd] in *.
  rewrite relay_events_app. apply pulse_train_app; assumption.
Qed.

(** X16. Whenever the callback or handleState is about to run, that is
    after setup() and after any sequence of commands and ticks, both relay
    outputs are at HIGH: a relay is only ever energized inside a tick. *)
Theorem relays_released_between_inputs power_up now sens ins :
  let m := fst (execution power_up now sens ins) in
  relayOpen (ports m) = HIGH /\ relayClose (ports m) = HIGH.
Proof.
  cbn zeta. apply released_levels.
  destruct (execution_summary power_up now sens ins) as (_ & H & _). exact H.
Qed.

Lemma settled_stopped_step i m :
  not_a_motion_command i -> settled_at roofStopped m ->
  relay_events (snd (step i m)) = [] /\ settled_at roofStopped (fst (step i m)).
Proof.
  intros Hi (Hs & Hp). destruct i as [myString sens|now sens].
  - destruct Hi as (HO & HC).
    destruct (callback_events myString sens m) as (Hev & _).
    split; [apply quiet_relay_events, sends_only_quiet; exact Hev|].
    cbn [step]. rewrite callback_shape. unfold commanded.
    apply String.eqb_neq in HO, HC. rewrite HO, HC.
    destruct (String.eqb myString "ABORT"); split; cbn;
      first [reflexivity|assumption].
  - destruct (tick_without_change now sens m) as (H1 & _ & _ & _ & H5 & H6).
    { rewrite cutout_resolved. unfold resolved.
      rewrite (cutout_idle_when_stopped _ _ _ Hs). congruence. }
    split; [exact H1|]. split; congruence.
Qed.

Lemma settled_stopped_run ins : forall m,
  Forall not_a_motion_command ins -> settled_at roofStopped m ->
  relay_events (snd (run ins m)) = [] /\ settled_at roofStopped (fst (run ins m)).
Proof.
  induction ins as [|i rest IH]; intros m Hins Hm.
  - split; [reflexivity|exact Hm].
  - inversion Hins as [|? ? Hi Hrest]; subst.
    change (i :: rest) with ([i] ++ rest). rewrite run_app, run_one. cbn [fst snd].
    destruct (settled_stopped_step i m Hi Hm) as (He1 & Hm1).
    destruct (IH _ Hrest Hm1) as (He2 & Hm2).
    rewrite relay_events_app, He1, He2. split; [reflexivity|exact Hm2].
Qed.

(** X17. Without an OPEN or CLOSE command the roof never moves: whatever
    ticks, sensor readings and other strings arrive, the only writes to the
    relay pins are the two HIGH writes of setup(), and the roof stays
    settled at Stopped. *)
Theorem no_motion_without_command power_up now sens ins :
  Forall not_a_motion_command ins ->
  let r := execution power_up now sens ins in
  relay_events (snd r) =
    [EvWrite pinRelayOpen HIGH now; EvWrite pinRelayClose HIGH now]
  /\ settled_at roofStopped (fst r).
Proof.
  intros Hins. cbn zeta. unfold execution.
  assert (Hb : relay_events (snd (boot power_up now sens)) =
               [EvWrite pinRelayOpen HIGH now; EvWrite pinRelayClose HIGH now]
               /\ settled_at roofStopped (fst (boot power_up now sens)))
    by (split; [reflexivity|split; reflexivity]).
  destruct (boot power_up now sens) as [m0 e0]. cbn [fst snd] in Hb.
  destruct Hb as (He0 & Hm0).
  destruct (settled_stopped_run ins m0 Hins Hm0) as (He1 & Hm1).
  destruct (run ins m0) as [m1 e1]. cbn [fst snd] in *.
  rewrite relay_events_app, He0, He1. split; [reflexivity|exact Hm1].
Qed.

Lemma no_motion_without_command_witness :
  let ins := [Tick 2000 limit_open_reached; Command "QUERY" parked;
              Command "ABORT" ra_unparked; Command "open" parked;
              Tick 90000 limit_open_reached] in
  Forall not_a_motion_command ins
  /\ relay_events (snd (execution (mkPorts LOW LOW LOW) 0 parked ins)) =
     [EvWrite pinRelayOpen HIGH 0; EvWrite pinRelayClose HIGH 0]
  /\ settled_at roofStopped (fst (execution (mkPorts LOW LOW LOW) 0 parked ins)).
Proof.
  cbn zeta.
  assert (H : Forall not_a_motion_command
                [Tick 2000 limit_open_reached; Command "QUERY" parked;
                 Command "ABORT" ra_unparked; Command "open" parked;
                 Tick 90000 limit_open_reached]).
  { repeat constructor; discriminate. }
  split; [exact H|].
  exact (no_motion_without_command (mkPorts LOW LOW LOW) 0 parked _ H).
Defined.




(** ** The status LED *)

Lemma toggleLed_exact duration sens m :
  exec (toggleLed duration) sens m =
  if Word.to_ulong duration
     <? Word.usub (Word.to_ulong (clock m)) (ledToggleTime (globals m))
  then
    let v := if ledState (globals m) then LOW else HIGH in
    (mkMachine (mkGlobals (roofState (globals m)) (previousRoofState (globals m))
                          (hoistOnTime (globals m))
                          (Word.to_long (Word.to_ulong (clock m)))
                          (negb (ledState (globals m))))
               (with_led v (ports m)) (clock m),
     [EvWrite ledPin v (clock m)])
  else (m, []).
Proof.
  destruct m as [[rs pv h lt ls] [ro rc l] c].
  unfold exec, toggleLed, bind, millis, get_globals, when.
  cbn -[Word.to_ulong Word.to_long Word.usub].
  destruct (_ <? _); [|reflexivity].
  destruct ls; reflexivity.
Qed.

Lemma handleLEDs_toggles duration sens m :
  (limitClose sens = HIGH /\ limitOpen sens = LOW /\ duration = 50)
  \/ (limitOpen sens = HIGH /\ limitClose sens = LOW /\ duration = 1000) ->
  exec handleLEDs sens m = exec (toggleLed duration) sens m.
Proof.
  destruct sens as [lo lc ra dec]. cbn [limitClose limitOpen].
  intros [(-> & -> & ->)|(-> & -> & ->)];
    unfold exec, handleLEDs, bind, andM, reads, digitalRead; cbn -[toggleLed];
    match goal with |- context [toggleLed ?d ?s m] =>
      destruct (toggleLed d s m) as [[[] m1] e1] end; reflexivity.
Qed.

(** X19. With exactly one limit switch asserted the LED blinks, toggling
    at most once per period (50 ms with the close-limit switch asserted,
    1000 ms with the open-limit switch): a call of handleLEDs no more than
    one period after the last toggle changes nothing and writes nothing; a
    later one flips ledState, writes the LED pin to match it and restamps
    ledToggleTime. *)
Theorem led_toggles_once_per_period duration c sens m :
  (limitClose sens = HIGH /\ limitOpen sens = LOW /\ duration = 50)
  \/ (limitOpen sens = HIGH /\ limitClose sens = LOW /\ duration = 1000) ->
  ledToggleTime (globals m) = Word.to_long (Word.to_ulong c) ->
  0 <= clock m - c < 2 ^ 32 ->
  let r := exec handleLEDs sens m in
  (clock m - c <= duration -> r = (m, []))
  /\ (duration < clock m - c ->
      ledState (globals (fst r)) = negb (ledState (globals m))
      /\ led (ports (fst r)) = (if ledState (globals (fst r)) then HIGH else LOW)
      /\ ledToggleTime (globals (fst r)) = Word.to_long (Word.to_ulong (clock m))
      /\ snd r = [EvWrite ledPin (led (ports (fst r))) (clock m)]).
Proof.
  intros Hs Hl Hr. cbn zeta.
  assert (Hd : Word.to_ulong duration = duration).
  { apply to_ulong_small. unfold Word.modulus.
    destruct Hs as [(_ & _ & ->)|(_ & _ & ->)]; lia. }
  rewrite (handleLEDs_toggles duration sens m Hs), toggleLed_exact.
  rewrite Hl, usub_stamp, Hd.
  rewrite to_ulong_small by (unfold Word.modulus; lia).
  split; intros H.
  - destruct (Z.ltb_spec duration (clock m - c)); [lia|reflexivity].
  - destruct (Z.ltb_spec duration (clock m - c)); [|lia].
    cbn zeta. cbn [fst snd globals ports ledState led with_led ledToggleTime].
    destruct (ledState (globals m)); repeat split.
Qed.

Lemma led_toggles_once_per_period_witness :
  let m := at_time 40 idle_machine in
  limitClose closed_limit = HIGH /\ limitOpen closed_limit = LOW
  /\ ledToggleTime (globals m) = Word.to_long (Word.to_ulong 0)
  /\ 0 <= clock m - 0 < 2 ^ 32
  /\ clock m - 0 <= 50
  /\ exec handleLEDs closed_limit m = (m, []).
Proof.
  cbn zeta. split; [reflexivity|]. split; [reflexivity|]. split; [reflexivity|].
  split; [cbn; lia|]. split; [cbn; lia|].
  destruct (led_toggles_once_per_period 50 0 closed_limit (at_time 40 idle_machine))
    as (H & _).
  - left. repeat split.
  - reflexivity.
  - cbn. lia.
  - apply H. cbn. lia.
Defined.

Lemma handleLEDs_off sens m :
  limitOpen sens = limitClose sens ->
  exec handleLEDs sens m = exec (digitalWrite ledPin LOW) sens m.
Proof.
  destruct sens as [[|] [|] ra dec]; cbn [limitOpen limitClose]; intros H;
    try discriminate H; reflexivity.
Qed.

(** X20. handleLEDs never affects the roof: roofState, previousRoofState,
    hoistOnTime, both relay outputs and the clock are as before, the only
    pin it writes is the LED pin (at most once), and it sends nothing. *)
Theorem leds_leave_roof_alone sens m :
  let r := exec handleLEDs sens m in
  roofState (globals (fst r)) = roofState (globals m)
  /\ previousRoofState (globals (fst r)) = previousRoofState (globals m)
  /\ hoistOnTime (globals (fst r)) = hoistOnTime (globals m)
  /\ relays (ports (fst r)) = relays (ports m)
  /\ clock (fst r) = clock m
  /\ Forall (fun e => exists v, e = EvWrite ledPin v (clock m)) (snd r)
  /\ (List.length (snd r) <= 1)%nat.
Proof.
  cbn zeta.
  assert (Ht : forall d,
    let r := exec (toggleLed d) sens m in
    roofState (globals (fst r)) = roofState (globals m)
    /\ previousRoofState (globals (fst r)) = previousRoofState (globals m)
    /\ hoistOnTime (globals (fst r)) = hoistOnTime (globals m)
    /\ relays (ports (fst r)) = relays (ports m)
    /\ clock (fst r) = clock m
    /\ Forall (fun e => exists v, e = EvWrite ledPin v (clock m)) (snd r)
    /\ (List.length (snd r) <= 1)%nat).
  { intros d. cbn zeta. rewrite toggleLed_exact.
    destruct (_ <? _); cbn [fst snd globals ports clock roofState
                            previousRoofState hoistOnTime with_led relays
                            relayOpen relayClose List.length In];
      do 5 (split; [reflexivity|]); (split; [|lia]).
    - repeat constructor. eauto.
    - constructor. }
  assert (Hoff :
    let r := exec (digitalWrite ledPin LOW) sens m in
    roofState (globals (fst r)) = roofState (globals m)
    /\ previousRoofState (globals (fst r)) = previousRoofState (globals m)
    /\ hoistOnTime (globals (fst r)) = hoistOnTime (globals m)
    /\ relays (ports (fst r)) = relays (ports m)
    /\ clock (fst r) = clock m
    /\ Forall (fun e => exists v, e = EvWrite ledPin v (clock m)) (snd r)
    /\ (List.length (snd r) <= 1)%nat).
  { cbn. do 5 (split; [reflexivity|]). split; [|lia].
    repeat constructor. eauto. }
  destruct sens as [[|] [|] ra dec].
  - rewrite handleLEDs_off by reflexivity. exact Hoff.
  - rewrite (handleLEDs_toggles 50) by (left; repeat split). apply Ht.
  - rewrite (handleLEDs_toggles 1000) by (right; repeat split). apply Ht.
  - rewrite handleLEDs_off by reflexivity. exact Hoff.
Qed.

(** ** The replies to QUERY *)

(** X21. QUERY is always answered, with exactly one of NOTELESCOPEPARK,
    OPEN, CLOSED and UNKNOWN, and the answer is NOTELESCOPEPARK exactly
    when both park sensors read HIGH. *)
Theorem query_always_answers sens m :
  exists reply,
    snd (step (Command "QUERY" sens) m) = [EvSend reply]
    /\ (reply = "NOTELESCOPEPARK" \/ reply = "OPEN"
        \/ reply = "CLOSED" \/ reply = "UNKNOWN")
    /\ (reply = "NOTELESCOPEPARK" <-> parkRA sens = HIGH /\ parkDEC sens = HIGH).
Proof.
  cbn [step]. rewrite query_run. cbn [snd]. eexists. split; [reflexivity|].
  destruct sens as [[|] [|] [|] [|]]; cbn; split; try tauto;
    split; try (intros H; discriminate H); try (intros (H1 & H2); discriminate);
    try (intros _; split; reflexivity); intros _; reflexivity.
Qed.

(** X22. In a state reached by an execution, a tick that does not start a
    motion (the state left by safetyCutout is not a change into Opening or
    Closing: it is another state, or the motion already under way) changes
    the level of no relay output: both are at HIGH before, after every write
    of the tick, and at its end. A stop, by ABORT or by safetyCutout, only
    rewrites HIGH on outputs that are HIGH already. *)
Theorem stop_changes_no_level power_up t0 s0 ins now sens :
  let m := fst (execution power_up t0 s0 ins) in
  let st := roofState (globals (fst (exec safetyCutout sens (at_time now m)))) in
  let r := step (Tick now sens) m in
  (st = roofOpening \/ st = roofClosing -> st = previousRoofState (globals m)) ->
  relays (ports m) = (HIGH, HIGH)
  /\ Forall (fun ps => relays ps = (HIGH, HIGH)) (port_history (ports m) (snd r))
  /\ relays (ports (fst r)) = (HIGH, HIGH).
Proof.
  cbn zeta. rewrite cutout_resolved. intros Hno.
  destruct (execution_summary power_up t0 s0 ins) as (_ & Hrel & _).
  cbn zeta in Hrel. set (m := fst (execution power_up t0 s0 ins)) in *.
  assert (Hm : relays (ports m) = (HIGH, HIGH)).
  { destruct (released_levels _ Hrel) as (H1 & H2). unfold relays. congruence. }
  destruct (tick_shape now sens m) as (g1 & ev1 & _ & Hev & E).
  cbn zeta in E. rewrite E. clear E. apply led_only_quiet in Hev.
  assert (Hh : Forall (fun ps => relays ps = (HIGH, HIGH)) (port_history (ports m) ev1)).
  { eapply Forall_impl; [|apply quiet_history; exact Hev].
    intros ps Hps. cbn beta in Hps. congruence. }
  split; [exact Hm|].
  destruct (RoofState_eqb _ _) eqn:Eq.
  - cbn [fst snd ports]. split; [exact Hh|].
    rewrite (quiet_replay _ Hev). exact Hm.
  - apply RoofState_eqb_neq in Eq.
    destruct (resolved (globals m) now sens);
      try (exfalso; apply Eq, Hno; tauto); cbn [fst snd ports];
      (split; [|reflexivity]);
      rewrite port_history_app; apply Forall_app; (split; [exact Hh|]);
      cbn [port_history write_port relayOpen relayClose led];
      pose proof (quiet_replay _ Hev (ports m)) as Hq; rewrite Hm in Hq;
      unfold relays in Hq; injection Hq as Hq1 Hq2;
      repeat constructor; unfold relays; cbn; congruence.
Qed.

Lemma stop_changes_no_level_witness :
  let stopping := [Command "CLOSE" parked; Tick 1000 parked; Command "ABORT" parked] in
  let moving := [Command "OPEN" parked; Tick 1000 parked] in
  let m := fst (execution (mkPorts LOW LOW LOW) 0 parked stopping) in
  let m' := fst (execution (mkPorts LOW LOW LOW) 0 parked moving) in
  roofState (globals (fst (exec safetyCutout parked (at_time 9000 m)))) = roofStopped
  /\ Forall (fun ps => relays ps = (HIGH, HIGH))
            (port_history (ports m) (snd (step (Tick 9000 parked) m)))
  /\ roofState (globals (fst (exec safetyCutout parked (at_time 9000 m')))) = roofOpening
  /\ previousRoofState (globals m') = roofOpening
  /\ Forall (fun ps => relays ps = (HIGH, HIGH))
            (port_history (ports m') (snd (step (Tick 9000 parked) m'))).
Proof.
  cbn zeta. split; [vm_compute; reflexivity|]. split.
  - destruct (stop_changes_no_level (mkPorts LOW LOW LOW) 0 parked
                [Command "CLOSE" parked; Tick 1000 parked; Command "ABORT" parked]
                9000 parked) as (_ & H & _); [|exact H].
    vm_compute. intros [H|H]; discriminate H.
  - split; [vm_compute; reflexivity|]. split; [vm_compute; reflexivity|].
    destruct (stop_changes_no_level (mkPorts LOW LOW LOW) 0 parked
                [Command "OPEN" parked; Tick 1000 parked] 9000 parked)
      as (_ & H & _); [|exact H].
    vm_compute. intros _. reflexivity.
Defined.
